(** * Portal raycast, placement and transfer of the [portal/] mini-game

    A shallow embedding of [src/portal/player.py], [src/portal/portal.py],
    [src/portal/objects.py] and [src/portal/enemy.py].

    - [pygame.Vector2] and Python floats are modelled as pairs of reals
      (rounding is not modelled).
    - [pygame.Rect] holds C ints: its constructor and [collidepoint] convert
      float arguments by truncation toward zero ([pg_int]).
    - Python strings are [string]s. *)

From Stdlib Require Import ZArith Reals Lra Lia Psatz String List.
Import ListNotations.

Open Scope bool_scope.
Open Scope R_scope.

(** ** pygame values *)

Definition Vec : Type := (R * R)%type.

Definition vadd (a b : Vec) : Vec := (fst a + fst b, snd a + snd b).
Definition vsub (a b : Vec) : Vec := (fst a - fst b, snd a - snd b).
Definition vscale (k : R) (a : Vec) : Vec := (k * fst a, k * snd a).

(** [Vector2.length]. *)
Definition vlength (a : Vec) : R := sqrt (fst a * fst a + snd a * snd a).

(** [Vector2.normalize_ip]: divide by the length (only called on a
    non-zero vector in this code). *)
Definition normalize (a : Vec) : Vec :=
  (fst a / vlength a, snd a / vlength a).

(** Truthiness of a [Vector2]: false exactly for the zero vector. *)
Definition vec_truthy (a : Vec) : bool :=
  if Req_dec_T (fst a) 0 then
    if Req_dec_T (snd a) 0 then false else true
  else true.

(** Conversion of a Python float to a C int by pygame ([(int)dv]):
    truncation toward zero. *)
Definition pg_int (r : R) : Z :=
  if Rle_dec 0 r then Int_part r else (- Int_part (- r))%Z.

Record Rect := mkRect { rx : Z; ry : Z; rw : Z; rh : Z }.

Definition Rect_of (x y w h : R) : Rect :=
  mkRect (pg_int x) (pg_int y) (pg_int w) (pg_int h).

Definition r_left (r : Rect) : Z := rx r.
Definition r_right (r : Rect) : Z := (rx r + rw r)%Z.
Definition r_top (r : Rect) : Z := ry r.
Definition r_bottom (r : Rect) : Z := (ry r + rh r)%Z.

(** [Rect.center]: [x + w / 2] with C integer division. *)
Definition r_center (r : Rect) : Vec :=
  (IZR (rx r + Z.quot (rw r) 2), IZR (ry r + Z.quot (rh r) 2)).

(** [Rect.collidepoint]. *)
Definition collidepoint (r : Rect) (p : Vec) : bool :=
  let x := pg_int (fst p) in
  let y := pg_int (snd p) in
  (rx r <=? x)%Z && (x <? rx r + rw r)%Z &&
  (ry r <=? y)%Z && (y <? ry r + rh r)%Z.

(** [Rect.colliderect]: empty rectangles never collide; negative sizes are
    normalised by min/max. *)
Definition colliderect (a b : Rect) : bool :=
  if ((rw a =? 0) || (rh a =? 0) || (rw b =? 0) || (rh b =? 0))%Z then false
  else
    (Z.min (rx a) (rx a + rw a) <? Z.max (rx b) (rx b + rw b))%Z &&
    (Z.min (ry a) (ry a + rh a) <? Z.max (ry b) (ry b + rh b))%Z &&
    (Z.min (rx b) (rx b + rw b) <? Z.max (rx a) (rx a + rw a))%Z &&
    (Z.min (ry b) (ry b + rh b) <? Z.max (ry a) (ry a + rh a))%Z.

(** ** Level obstacles ([level.py]) *)

Record Obstacle := mkObstacle { ob_rect : Rect; allows_portals : bool }.

(** ** Portals ([portal.py]) *)

Record Portal := mkPortal {
  p_pos : Vec;
  p_orientation : string;
  p_color : string;
  p_width : Z;
  p_height : Z;
  p_rect : Rect;
  p_angle : Z
}.

(** [Portal.__init__] (the decorative particles and timer are left out). *)
Definition Portal_init (pos : Vec) (orientation color : string) : Portal :=
  let w := if String.eqb orientation "vertical" then 20%Z else 80%Z in
  let h := if String.eqb orientation "vertical" then 80%Z else 20%Z in
  mkPortal pos orientation color w h
    (Rect_of (fst pos) (snd pos) (IZR w) (IZR h))
    (if String.eqb orientation "vertical" then 90%Z else 0%Z).

(** [math.radians]. *)
Definition radians (d : R) : R := d * (PI / 180).

(** The angle of the velocity rotation of a transfer:
    [math.radians(exit_portal.angle - entry_portal.angle)]. *)
Definition angle_rad (entry exit : Portal) : R :=
  radians (IZR (p_angle exit - p_angle entry)).

(** The velocity rotation written out in the three [teleport_through_portal]
    methods. *)
Definition rotate_vel (a : R) (v : Vec) : Vec :=
  (fst v * cos a - snd v * sin a, fst v * sin a + snd v * cos a).

(** [self.vel *= 1.05]. *)
Definition boost (v : Vec) : Vec := vscale (105 / 100) v.

(** ** The player ([player.py]) *)

Module Player.

(** The fields of [Player] that the portal code reads or writes; the
    movement parameters and [on_ground]/[facing_right] are left out. *)
Record Player := mkPlayer {
  pos : Vec;
  vel : Vec;
  size : Vec;
  blue_portal : option Portal;
  orange_portal : option Portal
}.

Definition set_blue (pl : Player) (p : option Portal) : Player :=
  mkPlayer (pos pl) (vel pl) (size pl) p (orange_portal pl).
Definition set_orange (pl : Player) (p : option Portal) : Player :=
  mkPlayer (pos pl) (vel pl) (size pl) (blue_portal pl) p.

(** [Player.calculate_wall_normal]: distances to the four edges, their
    minimum, and the first edge (left, right, top, bottom) at that minimum. *)
Definition calculate_wall_normal (hit_pos : Vec) (obstacle : Obstacle) : Z * Z :=
  let rect := ob_rect obstacle in
  let dist_left := Rabs (fst hit_pos - IZR (r_left rect)) in
  let dist_right := Rabs (fst hit_pos - IZR (r_right rect)) in
  let dist_top := Rabs (snd hit_pos - IZR (r_top rect)) in
  let dist_bottom := Rabs (snd hit_pos - IZR (r_bottom rect)) in
  let min_dist := Rmin (Rmin (Rmin dist_left dist_right) dist_top) dist_bottom in
  if Req_dec_T min_dist dist_left then (-1, 0)%Z
  else if Req_dec_T min_dist dist_right then (1, 0)%Z
  else if Req_dec_T min_dist dist_top then (0, -1)%Z
  else (0, 1)%Z.

Definition step_size : R := 5.
Definition max_distance : R := 1000.
(** [int(max_distance / step_size)]. *)
Definition max_steps : nat := 200.

(** The inner loop over [level.obstacles]: the first obstacle whose rect
    contains the probe point. *)
Fixpoint first_containing (obstacles : list Obstacle) (p : Vec) : option Obstacle :=
  match obstacles with
  | [] => None
  | o :: rest => if collidepoint (ob_rect o) p then Some o else first_containing rest p
  end.

(** The outer loop of [raycast_to_wall], [n] iterations left. *)
Fixpoint march (n : nat) (current_pos direction : Vec) (obstacles : list Obstacle)
  : option (Vec * (Z * Z) * Obstacle) :=
  match n with
  | O => None
  | S n' =>
      let current_pos' := vadd current_pos (vscale step_size direction) in
      match first_containing obstacles current_pos' with
      | Some o => Some (current_pos', calculate_wall_normal current_pos' o, o)
      | None => march n' current_pos' direction obstacles
      end
  end.

(** [Player.raycast_to_wall]; [None] stands for [(None, None, None)]. *)
Definition raycast_to_wall (start_pos end_pos : Vec) (obstacles : list Obstacle)
  : option (Vec * (Z * Z) * Obstacle) :=
  let direction := (fst end_pos - fst start_pos, snd end_pos - snd start_pos) in
  if Req_dec_T (vlength direction) 0 then None
  else march max_steps start_pos (normalize direction) obstacles.

(** [Player.create_portal]; [None] stands for the returned [None]. *)
Definition create_portal (pl : Player) (target_pos : Vec) (color : string)
  (obstacles : list Obstacle) : option Portal :=
  match raycast_to_wall (pos pl) target_pos obstacles with
  | None => None
  | Some (hit_pos, hit_normal, hit_obstacle) =>
      if vec_truthy hit_pos && allows_portals hit_obstacle then
        let orientation :=
          if (Z.abs (fst hit_normal) >? Z.abs (snd hit_normal))%Z
          then "vertical"%string else "horizontal"%string in
        let portal := Portal_init hit_pos orientation color in
        let w := IZR (p_width portal) in
        let h := IZR (p_height portal) in
        let px := fst (p_pos portal) in
        let py := snd (p_pos portal) in
        let pos' :=
          if String.eqb orientation "vertical" then
            let x := if (fst hit_normal <? 0)%Z then px - w / 2 else px - w / 2 in
            (x, py - h / 2)
          else
            let y := if (snd hit_normal <? 0)%Z then py - h / 2 else py - h / 2 in
            (px - w / 2, y) in
        Some (mkPortal pos' orientation color (p_width portal) (p_height portal)
                (Rect_of (fst pos') (snd pos') w h) (p_angle portal))
      else None
  end.

(** pygame events: only the type and the mouse button are read. *)
Record Event := mkEvent { ev_type : Z; ev_button : Z }.
Definition MOUSEBUTTONDOWN : Z := 1025%Z.

(** The level as [handle_event] sees it: its obstacles and, when present,
    the camera offset. *)
Record Level := mkLevel { obstacles : list Obstacle; camera : option Vec }.

(** [Player.handle_event]; [mouse] is [pygame.mouse.get_pos()]. *)
Definition handle_event (event : Event) (mouse : Vec) (level : Level) (pl : Player)
  : Player :=
  if (ev_type event =? MOUSEBUTTONDOWN)%Z then
    let offset := match camera level with Some o => o | None => (0, 0) end in
    let world := (fst mouse + fst offset, snd mouse + snd offset) in
    if (ev_button event =? 1)%Z then
      set_blue pl (create_portal pl world "blue" (obstacles level))
    else if (ev_button event =? 3)%Z then
      set_orange pl (create_portal pl world "orange" (obstacles level))
    else pl
  else pl.

(** [penetration_dir] in [Player.teleport_through_portal]. *)
Definition penetration_dir (entry_portal : Portal) (v : Vec) : R :=
  if String.eqb (p_orientation entry_portal) "vertical"
  then (if Rlt_dec 0 (fst v) then 1 else -1)
  else (if Rlt_dec 0 (snd v) then 1 else -1).

(** The clearance [offset = 25]. *)
Definition offset : R := 25.

(** [Player.teleport_through_portal]. *)
Definition teleport_through_portal (entry_portal exit_portal : Portal) (pl : Player)
  : Player :=
  let player_center := (fst (pos pl) + fst (size pl) / 2,
                        snd (pos pl) + snd (size pl) / 2) in
  let entry_center := r_center (p_rect entry_portal) in
  let pdir := penetration_dir entry_portal (vel pl) in
  let a := angle_rad entry_portal exit_portal in
  let pos' :=
    if String.eqb (p_orientation exit_portal) "vertical" then
      (fst (p_pos exit_portal) + offset * pdir,
       snd (p_pos exit_portal) + IZR (p_height exit_portal) / 2 - snd (size pl) / 2
         + (snd player_center - snd entry_center))
    else
      (fst (p_pos exit_portal) + IZR (p_width exit_portal) / 2 - fst (size pl) / 2
         + (fst player_center - fst entry_center),
       snd (p_pos exit_portal) + offset * pdir) in
  let vel' := boost (rotate_vel a (vel pl)) in
  mkPlayer pos' vel' (size pl) (blue_portal pl) (orange_portal pl).

Definition player_rect (pl : Player) : Rect :=
  Rect_of (fst (pos pl)) (snd (pos pl)) (fst (size pl)) (snd (size pl)).

(** [Player.check_portal_transition]. *)
Definition check_portal_transition (pl : Player) : Player :=
  match blue_portal pl, orange_portal pl with
  | Some b, Some o =>
      if colliderect (player_rect pl) (p_rect b) then teleport_through_portal b o pl
      else if colliderect (player_rect pl) (p_rect o) then teleport_through_portal o b pl
      else pl
  | _, _ => pl
  end.

End Player.

(** ** Generic physics bodies ([objects.py]) *)

Module PhysicsObject.

(** The fields of [PhysicsObject] that the portal code reads or writes. *)
Record PhysicsObject := mkObject {
  pos : Vec;
  vel : Vec;
  size : Vec;
  rect : Rect
}.

(** [penetration_dir] in [PhysicsObject.teleport_through_portal]. *)
Definition penetration_dir (entry_portal : Portal) (v : Vec) : R :=
  if String.eqb (p_orientation entry_portal) "vertical"
  then (if Rlt_dec 0 (fst v) then 1 else -1)
  else (if Rlt_dec 0 (snd v) then 1 else -1).

(** [PhysicsObject.teleport_through_portal]; the centre is read from the
    integer [self.rect], and [self.rect.x = self.pos.x] truncates. *)
Definition teleport_through_portal (entry_portal exit_portal : Portal)
  (ob : PhysicsObject) : PhysicsObject :=
  let entry_center := r_center (p_rect entry_portal) in
  let obj_center := r_center (rect ob) in
  let pdir := penetration_dir entry_portal (vel ob) in
  let a := angle_rad entry_portal exit_portal in
  let pos' :=
    if String.eqb (p_orientation exit_portal) "vertical" then
      (fst (p_pos exit_portal) + fst (size ob) / 2 * pdir,
       snd (p_pos exit_portal) + IZR (p_height exit_portal) / 2 - snd (size ob) / 2
         + (snd obj_center - snd entry_center))
    else
      (fst (p_pos exit_portal) + IZR (p_width exit_portal) / 2 - fst (size ob) / 2
         + (fst obj_center - fst entry_center),
       snd (p_pos exit_portal) + snd (size ob) / 2 * pdir) in
  let rect' := mkRect (pg_int (fst pos')) (pg_int (snd pos')) (rw (rect ob)) (rh (rect ob)) in
  let vel' := boost (rotate_vel a (vel ob)) in
  mkObject pos' vel' (size ob) rect'.

(** [PhysicsObject.check_portal_transition]; the portals are
    [level.player.blue_portal] and [level.player.orange_portal]. *)
Definition check_portal_transition (blue orange : option Portal) (ob : PhysicsObject)
  : PhysicsObject :=
  match blue, orange with
  | Some b, Some o =>
      if colliderect (rect ob) (p_rect b) then teleport_through_portal b o ob
      else if colliderect (rect ob) (p_rect o) then teleport_through_portal o b ob
      else ob
  | _, _ => ob
  end.

End PhysicsObject.

(** ** Patrol enemies ([enemy.py]) *)

Module Enemy.

(** The fields of [Enemy] that the portal code reads or writes. *)
Record Enemy := mkEnemy {
  pos : Vec;
  vel : Vec;
  size : Vec;
  rect : Rect;
  state : string;
  confusion_timer : R;
  last_portal_time : R;
  portal_cooldown : R
}.

(** Assignment to [rect.center]: the float centre is truncated, then the
    corner is moved by half the size (C integer division). *)
Definition set_center (r : Rect) (c : Vec) : Rect :=
  mkRect (pg_int (fst c) - Z.quot (rw r) 2) (pg_int (snd c) - Z.quot (rh r) 2) (rw r) (rh r).

(** [Enemy.teleport_through_portal]; [now] is
    [pygame.time.get_ticks() / 1000.0]. *)
Definition teleport_through_portal (now : R) (entry_portal exit_portal : Portal)
  (e : Enemy) : Enemy :=
  let pos' := (fst (p_pos exit_portal), snd (p_pos exit_portal)) in
  let rect' := set_center (rect e) pos' in
  let a := angle_rad entry_portal exit_portal in
  let vel' := rotate_vel a (vel e) in
  mkEnemy pos' vel' (size e) rect' (state e) (confusion_timer e) now (portal_cooldown e).

(** [Enemy.become_confused]. *)
Definition become_confused (e : Enemy) : Enemy :=
  mkEnemy (pos e) (vel e) (size e) (rect e) "confused" 3 (last_portal_time e)
    (portal_cooldown e).

(** [Enemy.check_portal_transition]. *)
Definition check_portal_transition (now : R) (blue orange : option Portal) (e : Enemy)
  : Enemy :=
  if Rlt_dec (now - last_portal_time e) (portal_cooldown e) then e
  else
    match blue, orange with
    | Some b, Some o =>
        if colliderect (rect e) (p_rect b) then become_confused (teleport_through_portal now b o e)
        else if colliderect (rect e) (p_rect o) then become_confused (teleport_through_portal now o b e)
        else e
    | _, _ => e
    end.

End Enemy.

(** ** The camera ([camera.py]) *)

Module Camera.

Record Camera := mkCamera {
  width : R;
  height : R;
  offset : Vec;
  lerp_speed : R
}.

(** [Camera.__init__] (the unused [target] field is left out). *)
Definition init (w h : R) : Camera := mkCamera w h (0, 0) 5.

(** [Camera.update]: the target is read through its [pos] and [size]. *)
Definition update (target_pos target_size : Vec) (c : Camera) : Camera :=
  let desired_x := fst target_pos + fst target_size / 2 - width c / 2 in
  let desired_y := snd target_pos + snd target_size / 2 - height c / 2 in
  let ox := fst (offset c) + (desired_x - fst (offset c)) * lerp_speed c * (1 / 10) in
  let oy := snd (offset c) + (desired_y - snd (offset c)) * lerp_speed c * (1 / 10) in
  mkCamera (width c) (height c) (ox, oy) (lerp_speed c).

(** [Camera.apply]: world to screen coordinates. *)
Definition apply (c : Camera) (p : Vec) : Vec :=
  (fst p - fst (offset c), snd p - snd (offset c)).

End Camera.

(** ** Player movement ([Player.reset], [Player.update],
    [Player.handle_collisions]) *)

Module PlayerMove.

(** The player with the two movement flags the portal code does not use. *)
Record Body := mkBody {
  core : Player.Player;
  on_ground : bool;
  facing_right : bool
}.

Definition speed : R := 300.
Definition jump_strength : R := 600.
Definition gravity : R := 1500.

(** The entries of [pygame.key.get_pressed()] that [update] reads. *)
Record Keys := mkKeys {
  k_a : bool; k_left : bool; k_d : bool; k_right : bool;
  k_w : bool; k_up : bool; k_space : bool
}.

Definition with_pos_vel (pl : Player.Player) (p v : Vec) : Player.Player :=
  Player.mkPlayer p v (Player.size pl) (Player.blue_portal pl) (Player.orange_portal pl).

(** [Player.reset]. *)
Definition reset (start_pos : Vec) (b : Body) : Body :=
  mkBody (with_pos_vel (core b) start_pos (0, 0)) false (facing_right b).

(** The body of the loop of [Player.handle_collisions] for one obstacle;
    [player_rect] is the rect computed once before the loop. *)
Definition collide_one (direction : string) (player_rect : Rect) (b : Body)
  (obstacle : Obstacle) : Body :=
  let pl := core b in
  let r := ob_rect obstacle in
  let px := fst (Player.pos pl) in
  let py := snd (Player.pos pl) in
  let vx := fst (Player.vel pl) in
  let vy := snd (Player.vel pl) in
  if colliderect player_rect r then
    if String.eqb direction "horizontal" then
      let x :=
        if Rlt_dec 0 vx then IZR (r_left r) - fst (Player.size pl)
        else if Rlt_dec vx 0 then IZR (r_right r)
        else px in
      mkBody (with_pos_vel pl (x, py) (0, vy)) (on_ground b) (facing_right b)
    else if String.eqb direction "vertical" then
      if Rlt_dec 0 vy then
        mkBody (with_pos_vel pl (px, IZR (r_top r) - snd (Player.size pl)) (vx, 0))
          true (facing_right b)
      else if Rlt_dec vy 0 then
        mkBody (with_pos_vel pl (px, IZR (r_bottom r)) (vx, 0))
          (on_ground b) (facing_right b)
      else b
    else b
  else b.

(** [Player.handle_collisions]. *)
Definition handle_collisions (obstacles : list Obstacle) (direction : string) (b : Body)
  : Body :=
  fold_left (collide_one direction (Player.player_rect (core b))) obstacles b.

(** [Player.update]. *)
Definition update (dt : R) (keys : Keys) (obstacles : list Obstacle) (b : Body) : Body :=
  let pl := core b in
  let '(vx, fr) :=
    let '(vx, fr) := if k_a keys || k_left keys then (- speed, false)
                     else (0, facing_right b) in
    if k_d keys || k_right keys then (speed, true) else (vx, fr) in
  let '(vy, og) :=
    if (k_w keys || k_up keys || k_space keys) && on_ground b
    then (- jump_strength, false) else (snd (Player.vel pl), on_ground b) in
  let vy := vy + gravity * dt in
  let b1 := mkBody (with_pos_vel pl (fst (Player.pos pl) + vx * dt, snd (Player.pos pl))
                      (vx, vy)) og fr in
  let b2 := handle_collisions obstacles "horizontal" b1 in
  let pl2 := core b2 in
  let b3 := mkBody (with_pos_vel pl2
                      (fst (Player.pos pl2), snd (Player.pos pl2) + snd (Player.vel pl2) * dt)
                      (Player.vel pl2)) false (facing_right b2) in
  let b4 := handle_collisions obstacles "vertical" b3 in
  mkBody (Player.check_portal_transition (core b4)) (on_ground b4) (facing_right b4).

End PlayerMove.

(** ** Physics body movement ([PhysicsObject.update],
    [PhysicsObject.handle_collisions]) *)

Module ObjectMove.

Record Body := mkBody {
  obj : PhysicsObject.PhysicsObject;
  on_ground : bool
}.

Definition gravity : R := 1000.
Definition restitution : R := 3 / 10.
Definition friction : R := 8 / 10.

Definition with_pos_vel (o : PhysicsObject.PhysicsObject) (p v : Vec)
  : PhysicsObject.PhysicsObject :=
  PhysicsObject.mkObject p v (PhysicsObject.size o) (PhysicsObject.rect o).

(** [self.rect.x = self.pos.x] and [self.rect.y = self.pos.y]. *)
Definition sync_rect (o : PhysicsObject.PhysicsObject) : PhysicsObject.PhysicsObject :=
  let r := PhysicsObject.rect o in
  PhysicsObject.mkObject (PhysicsObject.pos o) (PhysicsObject.vel o) (PhysicsObject.size o)
    (mkRect (pg_int (fst (PhysicsObject.pos o))) (pg_int (snd (PhysicsObject.pos o)))
       (rw r) (rh r)).

Definition sync_rect_x (o : PhysicsObject.PhysicsObject) : PhysicsObject.PhysicsObject :=
  let r := PhysicsObject.rect o in
  PhysicsObject.mkObject (PhysicsObject.pos o) (PhysicsObject.vel o) (PhysicsObject.size o)
    (mkRect (pg_int (fst (PhysicsObject.pos o))) (ry r) (rw r) (rh r)).

Definition sync_rect_y (o : PhysicsObject.PhysicsObject) : PhysicsObject.PhysicsObject :=
  let r := PhysicsObject.rect o in
  PhysicsObject.mkObject (PhysicsObject.pos o) (PhysicsObject.vel o) (PhysicsObject.size o)
    (mkRect (rx r) (pg_int (snd (PhysicsObject.pos o))) (rw r) (rh r)).

(** The body of the loop of [PhysicsObject.handle_collisions]; [self.rect]
    is only re-synchronised after the loop. *)
Definition collide_one (direction : string) (b : Body) (obstacle : Obstacle) : Body :=
  let o := obj b in
  let r := ob_rect obstacle in
  let px := fst (PhysicsObject.pos o) in
  let py := snd (PhysicsObject.pos o) in
  let vx := fst (PhysicsObject.vel o) in
  let vy := snd (PhysicsObject.vel o) in
  if colliderect (PhysicsObject.rect o) r then
    if String.eqb direction "horizontal" then
      let x :=
        if Rlt_dec 0 vx then IZR (r_left r) - fst (PhysicsObject.size o)
        else if Rlt_dec vx 0 then IZR (r_right r)
        else px in
      mkBody (with_pos_vel o (x, py) (- vx * restitution, vy)) (on_ground b)
    else if String.eqb direction "vertical" then
      if Rlt_dec 0 vy then
        mkBody (with_pos_vel o (px, IZR (r_top r) - snd (PhysicsObject.size o)) (vx, 0)) true
      else if Rlt_dec vy 0 then
        mkBody (with_pos_vel o (px, IZR (r_bottom r)) (vx, - vy * restitution)) (on_ground b)
      else b
    else b
  else b.

(** [PhysicsObject.handle_collisions]. *)
Definition handle_collisions (obstacles : list Obstacle) (direction : string) (b : Body)
  : Body :=
  let b' := fold_left (collide_one direction) obstacles b in
  mkBody (sync_rect (obj b')) (on_ground b').

(** [PhysicsObject.update]; the portals are those of [level.player]. *)
Definition update (dt : R) (obstacles : list Obstacle) (blue orange : option Portal)
  (b : Body) : Body :=
  let o := obj b in
  let vy := snd (PhysicsObject.vel o) + gravity * dt in
  let vx := if on_ground b then fst (PhysicsObject.vel o) * (1 - friction * dt)
            else fst (PhysicsObject.vel o) in
  let o1 := sync_rect_x (with_pos_vel o (fst (PhysicsObject.pos o) + vx * dt,
                                         snd (PhysicsObject.pos o)) (vx, vy)) in
  let b2 := handle_collisions obstacles "horizontal" (mkBody o1 (on_ground b)) in
  let o2 := obj b2 in
  let o3 := sync_rect_y (with_pos_vel o2
              (fst (PhysicsObject.pos o2),
               snd (PhysicsObject.pos o2) + snd (PhysicsObject.vel o2) * dt)
              (PhysicsObject.vel o2)) in
  let b4 := handle_collisions obstacles "vertical" (mkBody o3 false) in
  mkBody (PhysicsObject.check_portal_transition blue orange (obj b4)) (on_ground b4).

End ObjectMove.

(** ** Pressure switches ([Switch] in [objects.py]) *)

Module Switch.

Record Switch := mkSwitch {
  pos : Vec;
  size : Vec;
  rect : Rect;
  activated : bool;
  activation_timer : R
}.

(** [Switch.__init__]. *)
Definition init (p : Vec) (sz : Vec) : Switch :=
  mkSwitch p sz (Rect_of (fst p) (snd p) (fst sz) (snd sz)) false 0.

(** [Switch.update]: the new switch and the returned "state changed" flag. *)
Definition update (dt : R) (physics_objects : list PhysicsObject.PhysicsObject)
  (s : Switch) : Switch * bool :=
  let was_activated := activated s in
  let act := existsb (fun o => colliderect (rect s) (PhysicsObject.rect o)) physics_objects in
  let timer := if act then Rmin 1 (activation_timer s + dt * 2)
               else Rmax 0 (activation_timer s - dt * 2) in
  (mkSwitch (pos s) (size s) (rect s) act timer, negb (Bool.eqb was_activated act)).

End Switch.

(** ** Levels ([level.py]) *)

Module Level.

(** The fields of [Level] that the game loop reads or writes; [doors] is
    always empty (no code adds a door) and is left out. *)
Record Level := mkLevel {
  obstacles : list Obstacle;
  physics_objects : list ObjectMove.Body;
  switches : list Switch.Switch;
  player_start_pos : Vec
}.

(** [PhysicsObject.__init__] with its [on_ground = False]. *)
Definition new_object (p sz : Vec) : ObjectMove.Body :=
  ObjectMove.mkBody
    (PhysicsObject.mkObject p (0, 0) sz (Rect_of (fst p) (snd p) (fst sz) (snd sz))) false.

(** [Level.__init__] with [load_level]. *)
Definition load (level_number : Z) : Level :=
  if (level_number =? 0)%Z then
    mkLevel
      [mkObstacle (mkRect 0 500 1000 100) true;
       mkObstacle (mkRect 0 0 50 500) true;
       mkObstacle (mkRect 950 0 50 500) true;
       mkObstacle (mkRect 0 0 1000 50) true;
       mkObstacle (mkRect 200 400 200 20) true;
       mkObstacle (mkRect 600 300 200 20) true;
       mkObstacle (mkRect 450 300 50 200) false]
      [new_object (300, 350) (40, 40)]
      [Switch.init (700, 290) (40, 10)]
      (100, 400)
  else mkLevel [] [] [] (100, 100).

(** [Level.update]; [blue] and [orange] are the portals of [level.player].
    The result of each [switch.update] only triggers
    [handle_switch_activation], which loops over the empty [doors]. *)
Definition update (dt : R) (blue orange : option Portal) (lv : Level) : Level :=
  let objs := map (ObjectMove.update dt (obstacles lv) blue orange) (physics_objects lv) in
  let sws := map (fun s => fst (Switch.update dt (map ObjectMove.obj objs) s)) (switches lv) in
  mkLevel (obstacles lv) objs sws (player_start_pos lv).

(** [Level.is_complete]. *)
Definition is_complete (lv : Level) : bool := false.

End Level.

(** [Level.can_place_portal]. *)
Definition can_place_portal (obstacles : list Obstacle) (p : Vec) : bool :=
  existsb (fun o => collidepoint (ob_rect o) p && allows_portals o) obstacles.

(** ** The game ([game.py], [main.py]) *)

Module Game.

(** A pygame event: type, [key] (for key events) and [button] (for mouse
    events). *)
Record GEvent := mkGEvent { g_type : Z; g_key : Z; g_button : Z }.

Definition QUIT : Z := 256%Z.
Definition KEYDOWN : Z := 768%Z.
Definition K_ESCAPE : Z := 27%Z.

(** The fields of [Game] (the screen apart). *)
Record Game := mkGame {
  game_state : string;
  current_level : Z;
  player : PlayerMove.Body;
  level : Level.Level;
  camera : Camera.Camera
}.

(** [Game.__init__] for a screen of size [w] x [h]. *)
Definition init (w h : R) : Game :=
  let lv := Level.load 0 in
  mkGame "playing" 0
    (PlayerMove.mkBody (Player.mkPlayer (Level.player_start_pos lv) (0, 0) (32, 64) None None)
       false true)
    lv (Camera.init w h).

(** [Game.handle_event]; [mouse] is [pygame.mouse.get_pos()]. The level the
    player sees has [level.camera = self.camera]. *)
Definition handle_event (event : GEvent) (mouse : Vec) (g : Game) : Game :=
  let st :=
    if (g_type event =? KEYDOWN)%Z then
      if String.eqb (game_state g) "menu" then "playing"%string
      else if (g_key event =? K_ESCAPE)%Z then "menu"%string
      else game_state g
    else game_state g in
  let pl :=
    if String.eqb st "playing" then
      let b := player g in
      PlayerMove.mkBody
        (Player.handle_event (Player.mkEvent (g_type event) (g_button event)) mouse
           (Player.mkLevel (Level.obstacles (level g)) (Some (Camera.offset (camera g))))
           (PlayerMove.core b))
        (PlayerMove.on_ground b) (PlayerMove.facing_right b)
    else player g in
  mkGame st (current_level g) pl (level g) (camera g).

(** [Game.update]; [keys] is what [pygame.key.get_pressed()] returns inside
    [player.update]. *)
Definition update (dt : R) (keys : PlayerMove.Keys) (g : Game) : Game :=
  if String.eqb (game_state g) "playing" then
    let pl := PlayerMove.update dt keys (Level.obstacles (level g)) (player g) in
    let c := PlayerMove.core pl in
    let lv := Level.update dt (Player.blue_portal c) (Player.orange_portal c) (level g) in
    let cam := Camera.update (Player.pos c) (Player.size c) (camera g) in
    if Level.is_complete lv then
      let n := (current_level g + 1)%Z in
      if (n >=? 3)%Z then mkGame "game_over" n pl lv cam
      else
        let lv' := Level.load n in
        mkGame (game_state g) n (PlayerMove.reset (Level.player_start_pos lv') pl) lv' cam
    else mkGame (game_state g) (current_level g) pl lv cam
  else g.

(** One pass of the loop of [main]: the events of the frame (with the mouse
    position at each), then [game.update(dt)]; [None] when a [QUIT] event
    ends the program. *)
Record Frame := mkFrame {
  events : list (GEvent * Vec);
  frame_dt : R;
  frame_keys : PlayerMove.Keys
}.

Fixpoint handle_events (evs : list (GEvent * Vec)) (g : Game) : option Game :=
  match evs with
  | [] => Some g
  | (e, mouse) :: rest =>
      if (g_type e =? QUIT)%Z then None else handle_events rest (handle_event e mouse g)
  end.

Definition frame (fr : Frame) (g : Game) : option Game :=
  match handle_events (events fr) g with
  | None => None
  | Some g' => Some (update (frame_dt fr) (frame_keys fr) g')
  end.

Fixpoint run (frames : list Frame) (g : Game) : option Game :=
  match frames with
  | [] => Some g
  | fr :: rest =>
      match frame fr g with
      | None => None
      | Some g' => run rest g'
      end
  end.

End Game.

(** ** Portal particles ([Portal.update], [Portal.add_particle],
    [PortalParticle]) *)

Module Particles.

Record Particle := mkParticle {
  pt_pos : Vec;
  pt_vel : Vec;
  lifetime : R;
  radius : R
}.

(** The random draws of one [add_particle] call: [offset_x], [offset_y],
    the radius, the angle and the speed. *)
Record Draw := mkDraw { d_ox : Z; d_oy : Z; d_radius : Z; d_angle : R; d_speed : R }.

(** [PortalParticle.__init__]. *)
Definition new_particle (x y : R) (d : Draw) : Particle :=
  mkParticle (x, y) (cos (d_angle d) * d_speed d, sin (d_angle d) * d_speed d) 1
    (IZR (d_radius d)).

(** [PortalParticle.update]. *)
Definition particle_update (dt : R) (p : Particle) : Particle :=
  mkParticle (vadd (pt_pos p) (vscale dt (pt_vel p))) (pt_vel p) (lifetime p - dt)
    (Rmax 0 (radius p - dt * 2)).

(** The animated part of a [Portal]. *)
Record PortalFx := mkPortalFx {
  fx_portal : Portal;
  particles : list Particle;
  animation_timer : R
}.

(** [Portal.add_particle]. *)
Definition add_particle (d : Draw) (fx : PortalFx) : PortalFx :=
  let p := fx_portal fx in
  mkPortalFx p
    (particles fx ++ [new_particle (fst (p_pos p) + IZR (d_ox d))
                                   (snd (p_pos p) + IZR (d_oy d)) d])
    (animation_timer fx).

(** [Portal.update]: every particle is updated in place and the expired
    ones are removed; [ticks] is [pygame.time.get_ticks()]. *)
Definition update (dt : R) (ticks : Z) (d : Draw) (fx : PortalFx) : PortalFx :=
  let ps := filter (fun q => if Rle_dec (lifetime q) 0 then false else true)
              (map (particle_update dt) (particles fx)) in
  let fx' := mkPortalFx (fx_portal fx) ps (animation_timer fx + dt) in
  if (Nat.ltb (length ps) 20 && (ticks mod 100 <? 20)%Z)%bool then add_particle d fx'
  else fx'.

End Particles.

(** ** Enemy movement ([Enemy.patrol], [Enemy.chase_player]) *)

Module EnemyMove.

(** An enemy with its patrol route. *)
Record Body := mkBody {
  en : Enemy.Enemy;
  patrol_points : list Vec;
  current_target : nat
}.

Definition speed : R := 100.

Definition with_vel (e : Enemy.Enemy) (v : Vec) : Enemy.Enemy :=
  Enemy.mkEnemy (Enemy.pos e) v (Enemy.size e) (Enemy.rect e) (Enemy.state e)
    (Enemy.confusion_timer e) (Enemy.last_portal_time e) (Enemy.portal_cooldown e).

(** [Enemy.patrol] (its [dt] is not read); [None] stands for the
    [IndexError] of [self.patrol_points[self.current_target]]. *)
Definition patrol (b : Body) : option Body :=
  match patrol_points b with
  | [] => Some b
  | pts =>
      match nth_error pts (current_target b) with
      | None => None
      | Some target =>
          let direction := vsub target (Enemy.pos (en b)) in
          if Rlt_dec (vlength direction) 10 then
            Some (mkBody (en b) pts (Nat.modulo (current_target b + 1) (length pts)))
          else
            let direction := if Rlt_dec 0 (vlength direction) then normalize direction
                             else direction in
            Some (mkBody (with_vel (en b) (vscale speed direction)) pts (current_target b))
      end
  end.

(** [Enemy.chase_player] (its [dt] is not read). *)
Definition chase_player (player_pos : Vec) (b : Body) : Body :=
  let direction := vsub player_pos (Enemy.pos (en b)) in
  let direction := if Rlt_dec 0 (vlength direction) then normalize direction
                   else direction in
  mkBody (with_vel (en b) (vscale speed direction)) (patrol_points b) (current_target b).

End EnemyMove.

(** The [k]-th probe point of the march from [s] along [d]:
    [s + k * step_size * d]. *)
Definition probe (s d : Vec) (k : nat) : Vec :=
  vadd s (vscale (INR k * Player.step_size) d).

(** ** Sample level data *)

(** A 2-unit-thick wall across the x axis at x = 1..3, and a wall at
    x = 5..15 behind it. *)
Definition thin_wall : Obstacle := mkObstacle (mkRect 1 (-5) 2 10) true.
Definition far_wall : Obstacle := mkObstacle (mkRect 5 (-5) 10 10) true.

(** A player standing at the world origin with no portals. *)
Definition sample_player : Player.Player :=
  Player.mkPlayer (0, 0) (0, 0) (32, 64) None None.

(** A portal-resistant wall at x = 5..15. *)
Definition resistant_wall : Obstacle := mkObstacle (mkRect 5 (-5) 10 10) false.

(** Two vertical portals (angle 90), as [Portal(...)] builds them before
    [create_portal] shifts them. *)
Definition portal_A : Portal := Portal_init (100, 100) "vertical" "blue".
Definition portal_B : Portal := Portal_init (500, 100) "vertical" "orange".

(** The sample player, already owning a blue portal. *)
Definition player_with_portal : Player.Player :=
  Player.mkPlayer (0, 0) (0, 0) (32, 64) (Some portal_A) None.

(** A player overlapping [portal_A] while walking left. *)
Definition walking_left : Player.Player :=
  Player.mkPlayer (95, 110) (-300, 0) (32, 64) (Some portal_A) (Some portal_B).

(** An enemy moving right at 200 units per second. *)
Definition sample_enemy : Enemy.Enemy :=
  Enemy.mkEnemy (105, 140) (200, 0) (30, 30) (mkRect 90 125 30 30) "patrol" 0 0 1.

(** The exit placement the spec describes for every actor kind: along the
    exit portal's axis, the clearance of that axis times the penetration
    direction from the portal's position; across it, the portal's centre
    line plus the actor's offset from the entry portal's centre. *)
Definition transfer_position (exit_portal : Portal) (actor_center entry_center size : Vec)
  (clearance : Vec) (pdir : R) : Vec :=
  if String.eqb (p_orientation exit_portal) "vertical" then
    (fst (p_pos exit_portal) + fst clearance * pdir,
     snd (p_pos exit_portal) + IZR (p_height exit_portal) / 2 - snd size / 2
       + (snd actor_center - snd entry_center))
  else
    (fst (p_pos exit_portal) + IZR (p_width exit_portal) / 2 - fst size / 2
       + (fst actor_center - fst entry_center),
     snd (p_pos exit_portal) + snd clearance * pdir).

(** ** Auxiliary lemmas *)

Lemma pg_int_IZR (z : Z) : pg_int (IZR z) = z.
Proof.
  unfold pg_int. destruct (Rle_dec 0 (IZR z)).
  - symmetry. apply Int_part_spec. lra.
  - rewrite <- opp_IZR.
    rewrite <- (Int_part_spec (IZR (- z)) (- z)); [lia | lra].
Qed.

Lemma vlength_zero_iff (v : Vec) : vlength v = 0 <-> fst v = 0 /\ snd v = 0.
Proof.
  unfold vlength. split.
  - intro H. apply sqrt_eq_0 in H; [nra | nra].
  - intros [H1 H2]. rewrite H1, H2. replace (0 * 0 + 0 * 0) with 0 by ring.
    apply sqrt_0.
Qed.

Lemma vlength_nonneg (v : Vec) : 0 <= vlength v.
Proof. unfold vlength. apply sqrt_pos. Qed.

(** The normalised direction has length one. *)
Lemma normalize_unit (v : Vec) :
  vlength v <> 0 ->
  fst (normalize v) * fst (normalize v) + snd (normalize v) * snd (normalize v) = 1.
Proof.
  intro H. unfold normalize; simpl.
  assert (Hsq : vlength v * vlength v = fst v * fst v + snd v * snd v).
  { unfold vlength. apply sqrt_sqrt. nra. }
  field_simplify; [| exact H].
  replace (vlength v ^ 2) with (vlength v * vlength v) by ring.
  rewrite Hsq. field. intro Hz. apply H. apply vlength_zero_iff. nra.
Qed.

Lemma march_nil (n : nat) (cur d : Vec) : Player.march n cur d [] = None.
Proof. revert cur; induction n as [| n IH]; intro cur; simpl; auto. Qed.

Lemma wall_normal_left (hp : Vec) (ob : Obstacle) :
  let r := ob_rect ob in
  Rabs (fst hp - IZR (r_left r)) <= Rabs (fst hp - IZR (r_right r)) ->
  Rabs (fst hp - IZR (r_left r)) <= Rabs (snd hp - IZR (r_top r)) ->
  Rabs (fst hp - IZR (r_left r)) <= Rabs (snd hp - IZR (r_bottom r)) ->
  Player.calculate_wall_normal hp ob = (-1, 0)%Z.
Proof.
  cbv zeta. intros H1 H2 H3. unfold Player.calculate_wall_normal. cbv zeta.
  unfold Rmin. repeat destruct (Rle_dec _ _); destruct (Req_dec_T _ _);
    solve [reflexivity | lra].
Qed.

(** A ray whose first probe point is inside an obstacle. *)
Lemma raycast_first_step (s t : Vec) (obs : list Obstacle) (o : Obstacle) :
  let d := (fst t - fst s, snd t - snd s) in
  let p := vadd s (vscale Player.step_size (normalize d)) in
  vlength d <> 0 ->
  Player.first_containing obs p = Some o ->
  Player.raycast_to_wall s t obs = Some (p, Player.calculate_wall_normal p o, o).
Proof.
  cbv zeta. intros Hd Hf. unfold Player.raycast_to_wall.
  destruct (Req_dec_T _ _) as [E | _]; [contradiction |].
  unfold Player.max_steps. simpl. rewrite Hf. reflexivity.
Qed.

Lemma vlength_10_0 : vlength (10 - 0, 0 - 0) = 10.
Proof.
  unfold vlength; simpl.
  replace ((10 - 0) * (10 - 0) + (0 - 0) * (0 - 0)) with (10 * 10) by ring.
  apply sqrt_square. lra.
Qed.

(** Aiming from (0,0) at (10,0): the first probe point is (5,0). *)
Lemma first_probe_0_10 :
  vadd (0, 0) (vscale Player.step_size (normalize (10 - 0, 0 - 0))) = (5, 0).
Proof.
  unfold vadd, vscale, normalize, Player.step_size. rewrite vlength_10_0. simpl.
  f_equal; field.
Qed.

Lemma raycast_sample (obs : list Obstacle) (o : Obstacle) :
  Player.first_containing obs (5, 0) = Some o ->
  Player.raycast_to_wall (0, 0) (10, 0) obs
  = Some ((5, 0), Player.calculate_wall_normal (5, 0) o, o).
Proof.
  intro Hf. rewrite <- first_probe_0_10.
  apply (raycast_first_step (0, 0) (10, 0)); simpl.
  - rewrite vlength_10_0. lra.
  - rewrite first_probe_0_10. exact Hf.
Qed.

Lemma raycast_sample_far :
  Player.raycast_to_wall (0, 0) (10, 0) [thin_wall; far_wall]
  = Some ((5, 0), (-1, 0)%Z, far_wall).
Proof.
  rewrite (raycast_sample _ far_wall).
  - rewrite wall_normal_left; [reflexivity | ..]; simpl;
      unfold r_left, r_right, r_top, r_bottom; simpl;
      unfold Rabs; repeat destruct (Rcase_abs _); lra.
  - unfold Player.first_containing, collidepoint; simpl.
    rewrite !pg_int_IZR. reflexivity.
Qed.

Lemma probe_1 (cur d : Vec) : probe cur d 1 = vadd cur (vscale Player.step_size d).
Proof. unfold probe, vadd, vscale; simpl. f_equal; ring. Qed.

Lemma probe_S (cur d : Vec) (k : nat) :
  probe cur d (S k) = probe (vadd cur (vscale Player.step_size d)) d k.
Proof. unfold probe, vadd, vscale. rewrite S_INR. simpl. f_equal; ring. Qed.

(** What the outer loop of the raycast returns: the first probe point
    that lies in some obstacle, with the first such obstacle. *)
Lemma march_spec (n : nat) (cur d : Vec) (obs : list Obstacle)
  (hp : Vec) (nrm : Z * Z) (o : Obstacle) :
  Player.march n cur d obs = Some (hp, nrm, o) ->
  exists k, (1 <= k <= n)%nat /\ hp = probe cur d k /\
    Player.first_containing obs hp = Some o /\
    nrm = Player.calculate_wall_normal hp o /\
    (forall j, (1 <= j < k)%nat -> Player.first_containing obs (probe cur d j) = None).
Proof.
  revert cur. induction n as [| n IH]; intros cur H; [discriminate |].
  simpl in H.
  destruct (Player.first_containing obs (vadd cur (vscale Player.step_size d)))
    as [o' |] eqn:Hf.
  - inversion H; subst. exists 1%nat. rewrite probe_1.
    split; [lia |]. split; [reflexivity |]. split; [exact Hf |].
    split; [reflexivity |]. intros j Hj; lia.
  - destruct (IH _ H) as (k & Hk & Hhp & Hfo & Hn & Hbefore).
    exists (S k). rewrite probe_S.
    split; [lia |]. split; [exact Hhp |]. split; [exact Hfo |]. split; [exact Hn |].
    intros j Hj. destruct j as [| [| j]]; [lia | rewrite probe_1; exact Hf |].
    rewrite probe_S. apply Hbefore. lia.
Qed.

(** Conversely, the outer loop stops at the first probe point that lies
    in some obstacle. *)
Lemma march_complete (n : nat) (cur d : Vec) (obs : list Obstacle) (k : nat) (o : Obstacle) :
  (1 <= k <= n)%nat ->
  Player.first_containing obs (probe cur d k) = Some o ->
  (forall j, (1 <= j < k)%nat -> Player.first_containing obs (probe cur d j) = None) ->
  Player.march n cur d obs
  = Some (probe cur d k, Player.calculate_wall_normal (probe cur d k) o, o).
Proof.
  revert cur k. induction n as [| n IH]; intros cur k Hk Hf Hb; [lia |].
  simpl. destruct k as [| [| k]]; [lia | |].
  - rewrite probe_1 in Hf |- *. rewrite Hf. reflexivity.
  - assert (H1 := Hb 1%nat ltac:(lia)). rewrite probe_1 in H1. rewrite H1.
    rewrite probe_S in Hf |- *. apply IH; [lia | exact Hf |].
    intros j Hj. rewrite <- probe_S. apply Hb. lia.
Qed.

(** When the outer loop finds nothing, no probe point lies in an obstacle. *)
Lemma march_none_spec (n : nat) (cur d : Vec) (obs : list Obstacle) :
  Player.march n cur d obs = None ->
  forall j, (1 <= j <= n)%nat -> Player.first_containing obs (probe cur d j) = None.
Proof.
  revert cur. induction n as [| n IH]; intros cur H j Hj; [lia |].
  simpl in H.
  destruct (Player.first_containing obs (vadd cur (vscale Player.step_size d))) eqn:Hf;
    [discriminate |].
  destruct j as [| [| j]]; [lia | rewrite probe_1; exact Hf |].
  rewrite probe_S. apply (IH _ H). lia.
Qed.

Lemma first_containing_app (pre post : list Obstacle) (o : Obstacle) (p : Vec) :
  collidepoint (ob_rect o) p = true ->
  (forall o', In o' pre -> collidepoint (ob_rect o') p = false) ->
  Player.first_containing (pre ++ o :: post) p = Some o.
Proof.
  intros Ho Hpre. induction pre as [| o1 pre IH]; simpl.
  - rewrite Ho. reflexivity.
  - rewrite (Hpre o1 (or_introl eq_refl)). apply IH. intros o' Hin. apply Hpre. right. exact Hin.
Qed.

Lemma first_containing_all_false (obs : list Obstacle) (p : Vec) :
  (forall o, In o obs -> collidepoint (ob_rect o) p = false) ->
  Player.first_containing obs p = None.
Proof.
  induction obs as [| o1 obs IH]; intro H; simpl; [reflexivity |].
  rewrite (H o1 (or_introl eq_refl)). apply IH. intros o Hin. apply H. right. exact Hin.
Qed.

Lemma first_containing_spec (obs : list Obstacle) (p : Vec) (o : Obstacle) :
  Player.first_containing obs p = Some o ->
  exists pre post, obs = pre ++ o :: post /\
    collidepoint (ob_rect o) p = true /\
    (forall o', In o' pre -> collidepoint (ob_rect o') p = false).
Proof.
  induction obs as [| o1 rest IH]; simpl; [discriminate |].
  destruct (collidepoint (ob_rect o1) p) eqn:Hc.
  - intro H; inversion H; subst. exists [], rest. simpl. repeat split; auto.
    intros o' [].
  - intro H. destruct (IH H) as (pre & post & Heq & Hin & Hpre).
    exists (o1 :: pre), post. subst rest. repeat split; auto.
    intros o' [<- | Ho']; auto.
Qed.

Lemma first_containing_none (obs : list Obstacle) (p : Vec) (o : Obstacle) :
  Player.first_containing obs p = None -> In o obs -> collidepoint (ob_rect o) p = false.
Proof.
  induction obs as [| o1 rest IH]; simpl; [intros _ [] |].
  destruct (collidepoint (ob_rect o1) p) eqn:Hc; [discriminate |].
  intros H [<- | Ho]; auto.
Qed.

Lemma raycast_spec (s t : Vec) (obs : list Obstacle) (hp : Vec) (nrm : Z * Z)
  (o : Obstacle) :
  Player.raycast_to_wall s t obs = Some (hp, nrm, o) ->
  let d := (fst t - fst s, snd t - snd s) in
  vlength d <> 0 /\
  exists k, (1 <= k <= 200)%nat /\ hp = probe s (normalize d) k /\
    Player.first_containing obs hp = Some o /\
    nrm = Player.calculate_wall_normal hp o /\
    (forall j, (1 <= j < k)%nat ->
       Player.first_containing obs (probe s (normalize d) j) = None).
Proof.
  unfold Player.raycast_to_wall. cbv zeta.
  destruct (Req_dec_T _ _) as [_ | Hd]; [discriminate |].
  intro H. split; [exact Hd |]. exact (march_spec _ _ _ _ _ _ _ H).
Qed.

Lemma normal_far_wall_5_0 : Player.calculate_wall_normal (5, 0) far_wall = (-1, 0)%Z.
Proof.
  apply wall_normal_left; simpl; unfold r_left, r_right, r_top, r_bottom; simpl;
    unfold Rabs; repeat destruct (Rcase_abs _); lra.
Qed.

Lemma raycast_sample_single :
  Player.raycast_to_wall (0, 0) (10, 0) [far_wall] = Some ((5, 0), (-1, 0)%Z, far_wall).
Proof.
  rewrite (raycast_sample _ far_wall).
  - rewrite normal_far_wall_5_0. reflexivity.
  - unfold Player.first_containing, collidepoint; simpl.
    rewrite !pg_int_IZR. reflexivity.
Qed.

(** Truncation keeps a point of [0, 5) left of x = 5. *)
Lemma pg_int_lt_5 (x : R) : 0 <= x < 5 -> (pg_int x < 5)%Z.
Proof.
  intro Hx. unfold pg_int. destruct (Rle_dec 0 x) as [_ | Hn]; [| lra].
  destruct (base_Int_part x) as [H1 _].
  apply lt_IZR. lra.
Qed.

(** ** The claims *)

(** C9: the raycast answers "no hit" (the [(None, None, None)] result, no
    exception) when aimed at its own origin, whatever the obstacles, and
    whenever the obstacle list is empty. *)
Theorem raycast_no_hit_degenerate :
  (forall (s : Vec) (obs : list Obstacle), Player.raycast_to_wall s s obs = None) /\
  (forall (s t : Vec), Player.raycast_to_wall s t [] = None).
Proof.
  split.
  - intros s obs. unfold Player.raycast_to_wall.
    destruct (Req_dec_T _ _) as [_ | Hn]; [reflexivity |].
    exfalso. apply Hn. apply vlength_zero_iff. simpl. split; ring.
  - intros s t. unfold Player.raycast_to_wall.
    destruct (Req_dec_T _ _); [reflexivity |]. apply march_nil.
Qed.

(** C5: the wall normal is the one of the nearest edge of the struck
    rectangle, ties going to left, then right, then top, then bottom; it is
    always one of the four axis-aligned unit vectors. *)
Theorem calculate_wall_normal_nearest_edge (hp : Vec) (ob : Obstacle) :
  let r := ob_rect ob in
  let dl := Rabs (fst hp - IZR (r_left r)) in
  let dr := Rabs (fst hp - IZR (r_right r)) in
  let dt := Rabs (snd hp - IZR (r_top r)) in
  let db := Rabs (snd hp - IZR (r_bottom r)) in
  let n := Player.calculate_wall_normal hp ob in
  (dl <= dr /\ dl <= dt /\ dl <= db -> n = (-1, 0)%Z) /\
  (dr < dl /\ dr <= dt /\ dr <= db -> n = (1, 0)%Z) /\
  (dt < dl /\ dt < dr /\ dt <= db -> n = (0, -1)%Z) /\
  (db < dl /\ db < dr /\ db < dt -> n = (0, 1)%Z) /\
  (n = (-1, 0)%Z \/ n = (1, 0)%Z \/ n = (0, -1)%Z \/ n = (0, 1)%Z).
Proof.
  cbv zeta. unfold Player.calculate_wall_normal. cbv zeta. unfold Rmin.
  repeat split; try intros [H1 [H2 H3]];
    repeat destruct (Rle_dec _ _); repeat destruct (Req_dec_T _ _);
    solve [reflexivity | lra | tauto].
Qed.

(** C6: a created portal is vertical (20 x 80, angle 90) when the hit
    normal has [|n.x| > |n.y|], and horizontal (80 x 20, angle 0) otherwise;
    its rect has those fixed dimensions. *)
Theorem create_portal_orientation (pl : Player.Player) (target : Vec) (color : string)
  (obs : list Obstacle) (hp : Vec) (n : Z * Z) (o : Obstacle) (p : Portal) :
  Player.raycast_to_wall (Player.pos pl) target obs = Some (hp, n, o) ->
  Player.create_portal pl target color obs = Some p ->
  if (Z.abs (fst n) >? Z.abs (snd n))%Z then
    p_orientation p = "vertical"%string /\ p_width p = 20%Z /\ p_height p = 80%Z /\
    p_angle p = 90%Z /\ rw (p_rect p) = 20%Z /\ rh (p_rect p) = 80%Z
  else
    p_orientation p = "horizontal"%string /\ p_width p = 80%Z /\ p_height p = 20%Z /\
    p_angle p = 0%Z /\ rw (p_rect p) = 80%Z /\ rh (p_rect p) = 20%Z.
Proof.
  intros Hr Hc. unfold Player.create_portal in Hc. rewrite Hr in Hc.
  destruct (vec_truthy hp && allows_portals o); [| discriminate].
  injection Hc as <-.
  destruct (Z.abs (fst n) >? Z.abs (snd n))%Z; simpl;
    rewrite !pg_int_IZR; repeat split.
Qed.

Lemma create_portal_orientation_witness :
  exists p, Player.create_portal sample_player (10, 0) "blue" [far_wall] = Some p /\
    p_orientation p = "vertical"%string /\ p_width p = 20%Z /\ p_height p = 80%Z /\
    p_angle p = 90%Z /\ rw (p_rect p) = 20%Z /\ rh (p_rect p) = 80%Z.
Proof.
  destruct (Player.create_portal sample_player (10, 0) "blue" [far_wall]) as [p |] eqn:Hc.
  - exists p. split; [reflexivity |].
    exact (create_portal_orientation sample_player (10, 0) "blue" [far_wall]
             (5, 0) (-1, 0)%Z far_wall p raycast_sample_single Hc).
  - exfalso. unfold Player.create_portal in Hc. simpl in Hc.
    rewrite raycast_sample_single in Hc. unfold vec_truthy in Hc; simpl in Hc.
    destruct (Req_dec_T 5 0); [lra | discriminate].
Defined.

(** C10: a reported hit is the probe point [origin + k * 5 * u] for some
    [1 <= k <= 200], with [u] the unit direction toward the target; it is
    [5k] units from the origin, so never the origin itself and never more
    than 1000 units away. *)
Theorem raycast_hit_on_step_grid (s t : Vec) (obs : list Obstacle) (hp : Vec)
  (nrm : Z * Z) (o : Obstacle) :
  Player.raycast_to_wall s t obs = Some (hp, nrm, o) ->
  let u := normalize (fst t - fst s, snd t - snd s) in
  exists k : nat, (1 <= k <= 200)%nat /\
    hp = vadd s (vscale (INR k * 5) u) /\
    vlength (vsub hp s) = INR k * 5 /\
    hp <> s /\
    vlength (vsub hp s) <= 1000.
Proof.
  intros H u. destruct (raycast_spec _ _ _ _ _ _ H) as [Hd (k & Hk & Hhp & _)].
  fold u in Hhp. unfold probe, Player.step_size in Hhp.
  assert (Hu := normalize_unit _ Hd). fold u in Hu.
  assert (Hk1 : 1 <= INR k) by (apply (le_INR 1); lia).
  assert (Hk2 : INR k <= INR 200) by (apply le_INR; lia).
  rewrite (INR_IZR_INZ 200) in Hk2. simpl in Hk2.
  assert (Hlen : vlength (vsub hp s) = INR k * 5).
  { rewrite Hhp. unfold vlength, vsub, vadd, vscale; cbn [fst snd].
    replace ((fst s + INR k * 5 * fst u - fst s) * (fst s + INR k * 5 * fst u - fst s)
             + (snd s + INR k * 5 * snd u - snd s) * (snd s + INR k * 5 * snd u - snd s))
      with ((INR k * 5) * (INR k * 5)
            * (fst u * fst u + snd u * snd u)) by ring.
    rewrite Hu, Rmult_1_r. apply sqrt_square. lra. }
  exists k. split; [exact Hk |]. split; [exact Hhp |]. split; [exact Hlen |].
  split; [| lra].
  intro E. rewrite E in Hlen. unfold vlength, vsub in Hlen; simpl in Hlen.
  replace ((fst s - fst s) * (fst s - fst s) + (snd s - snd s) * (snd s - snd s))
    with 0 in Hlen by ring.
  rewrite sqrt_0 in Hlen. lra.
Qed.

Lemma raycast_hit_on_step_grid_witness :
  exists k : nat, (1 <= k <= 200)%nat /\
    ((5, 0) : Vec) = vadd (0, 0) (vscale (INR k * 5) (normalize (10 - 0, 0 - 0))) /\
    vlength (vsub (5, 0) (0, 0)) = INR k * 5 /\
    ((5, 0) : Vec) <> (0, 0) /\
    vlength (vsub (5, 0) (0, 0)) <= 1000.
Proof.
  exact (raycast_hit_on_step_grid (0, 0) (10, 0) [far_wall] (5, 0) (-1, 0)%Z far_wall
           raycast_sample_single).
Defined.

(** C4, as the claim states it, fails: a 2-unit-thick obstacle lying on
    the ray before the first probe point is stepped over, and the farther
    obstacle (which no point of the ray nearer than 5 units touches) is
    returned. *)
Lemma raycast_skips_nearer_obstacle :
  Player.raycast_to_wall (0, 0) (10, 0) [thin_wall; far_wall]
    = Some ((5, 0), (-1, 0)%Z, far_wall) /\
  collidepoint (ob_rect thin_wall) (2, 0) = true /\
  (forall x : R, 0 <= x < 5 -> collidepoint (ob_rect far_wall) (x, 0) = false).
Proof.
  split; [exact raycast_sample_far |]. split.
  - unfold collidepoint; simpl. rewrite !pg_int_IZR. reflexivity.
  - intros x Hx. unfold collidepoint; simpl.
    assert (H := pg_int_lt_5 x Hx).
    destruct (5 <=? pg_int x)%Z eqn:E; [apply Z.leb_le in E; lia | reflexivity].
Qed.

(** C4 (amended): for a non-degenerate aim, with [u] the unit direction,
    the raycast returns the first obstacle, in list order, containing the
    earliest probe point [origin + 5k u] ([1 <= k <= 200]) that lies in any
    obstacle: such a probe point always produces a hit, that hit is at the
    earliest such point and on that obstacle, and no obstacle contains an
    earlier probe point than a returned hit. *)
Theorem raycast_earliest_probe_hit (s t : Vec) (obs : list Obstacle) :
  let u := normalize (fst t - fst s, snd t - snd s) in
  vlength (fst t - fst s, snd t - snd s) <> 0 ->
  (forall (k : nat) (pre post : list Obstacle) (o : Obstacle),
     (1 <= k <= 200)%nat -> obs = pre ++ o :: post ->
     collidepoint (ob_rect o) (probe s u k) = true ->
     (forall o', In o' pre -> collidepoint (ob_rect o') (probe s u k) = false) ->
     (forall (o' : Obstacle) (j : nat), In o' obs -> (1 <= j < k)%nat ->
        collidepoint (ob_rect o') (probe s u j) = false) ->
     Player.raycast_to_wall s t obs
     = Some (probe s u k, Player.calculate_wall_normal (probe s u k) o, o)) /\
  ((exists (k : nat) (o : Obstacle), (1 <= k <= 200)%nat /\ In o obs /\
      collidepoint (ob_rect o) (probe s u k) = true) ->
   exists hp nrm o, Player.raycast_to_wall s t obs = Some (hp, nrm, o)) /\
  (forall (hp : Vec) (nrm : Z * Z) (o : Obstacle),
   Player.raycast_to_wall s t obs = Some (hp, nrm, o) ->
   exists k : nat, (1 <= k <= 200)%nat /\ hp = probe s u k /\
    (exists pre post, obs = pre ++ o :: post /\
       collidepoint (ob_rect o) hp = true /\
       (forall o', In o' pre -> collidepoint (ob_rect o') hp = false)) /\
    (forall (o' : Obstacle) (j : nat), In o' obs -> (1 <= j)%nat ->
       collidepoint (ob_rect o') (probe s u j) = true -> (k <= j)%nat)).
Proof.
  intros u Hd.
  assert (Hr : Player.raycast_to_wall s t obs = Player.march Player.max_steps s u obs).
  { unfold Player.raycast_to_wall. cbv zeta.
    destruct (Req_dec_T _ _) as [H0 | _]; [contradiction | reflexivity]. }
  split; [| split].
  - intros k pre post o Hk Hobs Hin Hpre Hbefore. rewrite Hr.
    apply march_complete; [exact Hk | |].
    + rewrite Hobs. apply first_containing_app; assumption.
    + intros j Hj. apply first_containing_all_false. intros o' Ho'.
      apply Hbefore; [exact Ho' | exact Hj].
  - intros (k & o & Hk & Ho & Hc). rewrite Hr.
    destruct (Player.march Player.max_steps s u obs) as [[[hp nrm] o'] |] eqn:Hm.
    + exists hp, nrm, o'. reflexivity.
    + exfalso. rewrite (first_containing_none obs _ o
                          (march_none_spec _ _ _ _ Hm k Hk) Ho) in Hc.
      discriminate.
  - intros hp nrm o H. destruct (raycast_spec _ _ _ _ _ _ H) as [_ (k & Hk & Hhp & Hf & _ & Hb)].
    fold u in Hhp, Hb.
    exists k. split; [exact Hk |]. split; [exact Hhp |]. split.
    + exact (first_containing_spec _ _ _ Hf).
    + intros o' j Hin Hj Hc. destruct (Nat.le_gt_cases k j) as [| Hlt]; [assumption |].
      rewrite (first_containing_none obs _ o' (Hb j (conj Hj Hlt)) Hin) in Hc.
      discriminate.
Qed.

Lemma raycast_earliest_probe_hit_witness :
  Player.raycast_to_wall (0, 0) (10, 0) [thin_wall; far_wall]
  = Some (probe (0, 0) (normalize (10 - 0, 0 - 0)) 1,
          Player.calculate_wall_normal (probe (0, 0) (normalize (10 - 0, 0 - 0)) 1) far_wall,
          far_wall).
Proof.
  assert (Hd : vlength (10 - 0, 0 - 0) <> 0) by (rewrite vlength_10_0; lra).
  assert (Hp : probe (0, 0) (normalize (10 - 0, 0 - 0)) 1 = (5, 0))
    by (rewrite probe_1; exact first_probe_0_10).
  destruct (raycast_earliest_probe_hit (0, 0) (10, 0) [thin_wall; far_wall] Hd) as [Ha _].
  apply (Ha 1%nat [thin_wall] []).
  - lia.
  - reflexivity.
  - cbn [fst snd]; rewrite Hp. unfold collidepoint; simpl. rewrite !pg_int_IZR. reflexivity.
  - intros o' [<- | []]. cbn [fst snd]; rewrite Hp. unfold collidepoint; simpl. rewrite !pg_int_IZR.
    reflexivity.
  - intros o' j _ Hj. lia.
Defined.

(** C1 (code_bug): a click on a portal-resistant wall is rejected by
    [create_portal], which returns [None]; [handle_event] stores that [None]
    in the blue channel, so the portal that was there is dropped. *)
Lemma handle_event_rejection_drops_portal :
  Player.create_portal player_with_portal (10 + 0, 0 + 0) "blue" [resistant_wall] = None /\
  Player.blue_portal player_with_portal = Some portal_A /\
  Player.blue_portal
    (Player.handle_event (Player.mkEvent Player.MOUSEBUTTONDOWN 1) (10, 0)
       (Player.mkLevel [resistant_wall] None) player_with_portal) = None.
Proof.
  assert (Hr : Player.create_portal player_with_portal (10 + 0, 0 + 0) "blue"
                 [resistant_wall] = None).
  { rewrite !Rplus_0_r. unfold Player.create_portal. simpl Player.pos.
    rewrite (raycast_sample _ resistant_wall).
    - simpl. rewrite Bool.andb_false_r. reflexivity.
    - unfold Player.first_containing, collidepoint; simpl.
      rewrite !pg_int_IZR. reflexivity. }
  split; [exact Hr |]. split; [reflexivity |].
  unfold Player.handle_event. simpl. exact Hr.
Qed.

(** C2 (code_bug): a player (clearance 25, at least half its width 32)
    overlapping the vertical portal [portal_A] while walking left is placed
    25 units left of [portal_B]'s left edge; its 32-unit-wide box then
    overlaps [portal_B], so the next tick transfers it back. *)
Lemma player_transfer_overlaps_exit :
  colliderect (Player.player_rect walking_left) (p_rect portal_A) = true /\
  Player.pos (Player.check_portal_transition walking_left) = (475, 110) /\
  colliderect (Player.player_rect (Player.check_portal_transition walking_left))
    (p_rect portal_B) = true.
Proof.
  assert (Hc : colliderect (Player.player_rect walking_left) (p_rect portal_A) = true).
  { unfold Player.player_rect, portal_A, Portal_init, Rect_of; simpl.
    rewrite !pg_int_IZR. reflexivity. }
  assert (Ht : Player.check_portal_transition walking_left
               = Player.teleport_through_portal portal_A portal_B walking_left).
  { unfold Player.check_portal_transition.
    replace (Player.blue_portal walking_left) with (Some portal_A) by reflexivity.
    replace (Player.orange_portal walking_left) with (Some portal_B) by reflexivity.
    rewrite Hc. reflexivity. }
  assert (Hp : Player.pos (Player.teleport_through_portal portal_A portal_B walking_left)
               = (475, 110)).
  { unfold Player.teleport_through_portal, Player.penetration_dir, Player.offset,
      portal_A, portal_B, Portal_init, r_center, Rect_of; simpl.
    rewrite !pg_int_IZR. simpl.
    destruct (Rlt_dec 0 (-300)) as [H | _]; [lra |].
    f_equal; lra. }
  split; [exact Hc |]. rewrite Ht. split; [exact Hp |].
  unfold Player.player_rect. rewrite Hp.
  replace (Player.size (Player.teleport_through_portal portal_A portal_B walking_left))
    with ((32, 64) : Vec) by reflexivity.
  unfold portal_B, Portal_init, Rect_of; simpl. rewrite !pg_int_IZR. reflexivity.
Qed.

Lemma angle_rad_same (e x : Portal) : p_angle e = p_angle x -> angle_rad e x = 0.
Proof.
  intro H. unfold angle_rad, radians. rewrite H, Z.sub_diag. simpl. ring.
Qed.

Lemma angle_rad_swap (e x : Portal) : angle_rad x e = - angle_rad e x.
Proof.
  unfold angle_rad, radians. rewrite !minus_IZR. ring.
Qed.

Lemma rotate_vel_0 (v : Vec) : rotate_vel 0 v = v.
Proof.
  destruct v as [vx vy]. unfold rotate_vel; simpl. rewrite cos_0, sin_0. f_equal; ring.
Qed.

Lemma rotate_vel_scale (a k : R) (v : Vec) :
  rotate_vel a (vscale k v) = vscale k (rotate_vel a v).
Proof. unfold rotate_vel, vscale; simpl. f_equal; ring. Qed.

Lemma rotate_vel_back (a : R) (v : Vec) : rotate_vel (- a) (rotate_vel a v) = v.
Proof.
  destruct v as [vx vy]. unfold rotate_vel; simpl. rewrite cos_neg, sin_neg.
  assert (Hcs : sin a * sin a + cos a * cos a = 1).
  { rewrite <- (sin2_cos2 a). unfold Rsqr. ring. }
  f_equal.
  - transitivity (vx * (sin a * sin a + cos a * cos a)); [ring | rewrite Hcs; ring].
  - transitivity (vy * (sin a * sin a + cos a * cos a)); [ring | rewrite Hcs; ring].
Qed.

Lemma player_vel_after (e x : Portal) (pl : Player.Player) :
  Player.vel (Player.teleport_through_portal e x pl)
  = boost (rotate_vel (angle_rad e x) (Player.vel pl)).
Proof. reflexivity. Qed.

Lemma object_vel_after (e x : Portal) (ob : PhysicsObject.PhysicsObject) :
  PhysicsObject.vel (PhysicsObject.teleport_through_portal e x ob)
  = boost (rotate_vel (angle_rad e x) (PhysicsObject.vel ob)).
Proof. reflexivity. Qed.

Lemma boost_round_trip (e x : Portal) (v : Vec) :
  boost (rotate_vel (angle_rad x e) (boost (rotate_vel (angle_rad e x) v)))
  = vscale (105 / 100 * (105 / 100)) v.
Proof.
  unfold boost. rewrite rotate_vel_scale, angle_rad_swap, rotate_vel_back.
  destruct v as [vx vy]. unfold vscale; simpl. f_equal; ring.
Qed.

(** C3, as stated, fails for the patrol enemy: its transfer rotates the
    velocity but applies no 1.05 boost. Between two vertical portals
    (same angle) an enemy moving at (200, 0) leaves at (200, 0), not at
    the boosted (210, 0). *)
Lemma enemy_transfer_has_no_boost :
  Enemy.vel (Enemy.teleport_through_portal 0 portal_A portal_B sample_enemy) = (200, 0) /\
  boost (rotate_vel (angle_rad portal_A portal_B) (Enemy.vel sample_enemy)) = (210, 0) /\
  Enemy.vel (Enemy.teleport_through_portal 0 portal_A portal_B sample_enemy)
    <> boost (rotate_vel (angle_rad portal_A portal_B) (Enemy.vel sample_enemy)).
Proof.
  assert (Ha : angle_rad portal_A portal_B = 0) by (apply angle_rad_same; reflexivity).
  assert (H1 : Enemy.vel (Enemy.teleport_through_portal 0 portal_A portal_B sample_enemy)
               = (200, 0)).
  { unfold Enemy.teleport_through_portal; simpl Enemy.vel. rewrite Ha, rotate_vel_0.
    reflexivity. }
  assert (H2 : boost (rotate_vel (angle_rad portal_A portal_B) (Enemy.vel sample_enemy))
               = (210, 0)).
  { rewrite Ha, rotate_vel_0. unfold boost, vscale; simpl. f_equal; lra. }
  split; [exact H1 |]. split; [exact H2 |].
  rewrite H1, H2. intro E. injection E. lra.
Qed.

(** C3 (amended): the player and the physics body share the transfer
    algorithm (same penetration direction, the exit placement of
    [transfer_position] with clearance 25 for the player and half the size
    for the body, whose centre is read from its integer rect, and the
    angle-delta rotation followed by the 1.05 boost); the patrol enemy only
    rotates its velocity by the same angle delta, with no boost, and is moved
    to the exit portal's position. *)
Theorem transfer_algorithm_by_actor_kind (entry exit : Portal) (pl : Player.Player)
  (ob : PhysicsObject.PhysicsObject) (e : Enemy.Enemy) (now : R) :
  Player.vel (Player.teleport_through_portal entry exit pl)
    = boost (rotate_vel (angle_rad entry exit) (Player.vel pl)) /\
  PhysicsObject.vel (PhysicsObject.teleport_through_portal entry exit ob)
    = boost (rotate_vel (angle_rad entry exit) (PhysicsObject.vel ob)) /\
  Enemy.vel (Enemy.teleport_through_portal now entry exit e)
    = rotate_vel (angle_rad entry exit) (Enemy.vel e) /\
  (forall v, Player.penetration_dir entry v = PhysicsObject.penetration_dir entry v) /\
  Player.pos (Player.teleport_through_portal entry exit pl)
    = transfer_position exit
        (fst (Player.pos pl) + fst (Player.size pl) / 2,
         snd (Player.pos pl) + snd (Player.size pl) / 2)
        (r_center (p_rect entry)) (Player.size pl) (25, 25)
        (Player.penetration_dir entry (Player.vel pl)) /\
  PhysicsObject.pos (PhysicsObject.teleport_through_portal entry exit ob)
    = transfer_position exit (r_center (PhysicsObject.rect ob)) (r_center (p_rect entry))
        (PhysicsObject.size ob)
        (fst (PhysicsObject.size ob) / 2, snd (PhysicsObject.size ob) / 2)
        (PhysicsObject.penetration_dir entry (PhysicsObject.vel ob)) /\
  Enemy.pos (Enemy.teleport_through_portal now entry exit e) = p_pos exit.
Proof.
  split; [reflexivity |]. split; [reflexivity |]. split; [reflexivity |].
  split; [reflexivity |].
  split; [| split].
  - unfold Player.teleport_through_portal, transfer_position, Player.offset. simpl.
    destruct (String.eqb (p_orientation exit) "vertical"); reflexivity.
  - unfold PhysicsObject.teleport_through_portal, transfer_position. simpl.
    destruct (String.eqb (p_orientation exit) "vertical"); reflexivity.
  - unfold Enemy.teleport_through_portal. simpl. destruct (p_pos exit); reflexivity.
Qed.

(** C7: transferring A -> B and then B -> A gives back the original
    velocity scaled by 1.05 * 1.05 (same direction), for the player and the
    physics body; and between portals of equal angle the rotation step
    leaves the velocity unchanged. *)
Theorem transfer_round_trip_velocity :
  (forall (pA pB : Portal) (pl : Player.Player),
     Player.vel (Player.teleport_through_portal pB pA (Player.teleport_through_portal pA pB pl))
     = vscale (105 / 100 * (105 / 100)) (Player.vel pl)) /\
  (forall (pA pB : Portal) (ob : PhysicsObject.PhysicsObject),
     PhysicsObject.vel (PhysicsObject.teleport_through_portal pB pA
                          (PhysicsObject.teleport_through_portal pA pB ob))
     = vscale (105 / 100 * (105 / 100)) (PhysicsObject.vel ob)) /\
  (forall (pA pB : Portal) (v : Vec),
     p_angle pA = p_angle pB -> rotate_vel (angle_rad pA pB) v = v).
Proof.
  split; [| split].
  - intros pA pB pl. rewrite !player_vel_after. apply boost_round_trip.
  - intros pA pB ob. rewrite !object_vel_after. apply boost_round_trip.
  - intros pA pB v H. rewrite (angle_rad_same _ _ H). apply rotate_vel_0.
Qed.

(** C8: when the velocity component along the entry portal's axis is zero,
    the penetration direction is -1, for the player and the physics body
    alike ([1 if v > 0 else -1]). *)
Theorem penetration_dir_zero_is_negative (entry : Portal) (v : Vec) :
  (if String.eqb (p_orientation entry) "vertical" then fst v else snd v) = 0 ->
  Player.penetration_dir entry v = -1 /\ PhysicsObject.penetration_dir entry v = -1.
Proof.
  unfold Player.penetration_dir, PhysicsObject.penetration_dir.
  destruct (String.eqb (p_orientation entry) "vertical"); intro H;
    rewrite H; destruct (Rlt_dec 0 0); split; solve [reflexivity | lra].
Qed.

Lemma penetration_dir_zero_is_negative_witness :
  Player.penetration_dir portal_A (0, 7) = -1 /\
  PhysicsObject.penetration_dir portal_A (0, 7) = -1.
Proof.
  apply penetration_dir_zero_is_negative. reflexivity.
Defined.

(** ** Further properties of the code *)

Lemma camera_update_shape (tp ts : Vec) (c : Camera.Camera) :
  Camera.width (Camera.update tp ts c) = Camera.width c /\
  Camera.height (Camera.update tp ts c) = Camera.height c /\
  Camera.lerp_speed (Camera.update tp ts c) = Camera.lerp_speed c.
Proof. repeat split. Qed.

Lemma camera_iter_shape (n : nat) (tp ts : Vec) (c : Camera.Camera) :
  Camera.width (Nat.iter n (Camera.update tp ts) c) = Camera.width c /\
  Camera.height (Nat.iter n (Camera.update tp ts) c) = Camera.height c /\
  Camera.lerp_speed (Nat.iter n (Camera.update tp ts) c) = Camera.lerp_speed c.
Proof.
  induction n as [| n [IH1 [IH2 IH3]]]; [repeat split |].
  simpl. auto.
Qed.

(** A mouse click during play ([Game.handle_event] passing the event to
    [Player.handle_event] with the game's camera) aims the portal at the
    one world point that [Camera.apply] draws under the cursor: button 1
    replaces the blue portal, button 3 the orange one, other buttons change
    nothing. *)
Theorem click_aims_at_point_under_cursor (e : Game.GEvent) (mouse : Vec) (g : Game.Game) :
  Game.game_state g = "playing"%string ->
  Game.g_type e = Player.MOUSEBUTTONDOWN ->
  let pl := PlayerMove.core (Game.player g) in
  let obs := Level.obstacles (Game.level g) in
  let c := Game.camera g in
  exists w : Vec,
    Camera.apply c w = mouse /\
    (forall w', Camera.apply c w' = mouse -> w' = w) /\
    PlayerMove.core (Game.player (Game.handle_event e mouse g))
    = (if (Game.g_button e =? 1)%Z then Player.set_blue pl (Player.create_portal pl w "blue" obs)
       else if (Game.g_button e =? 3)%Z
       then Player.set_orange pl (Player.create_portal pl w "orange" obs)
       else pl).
Proof.
  intros Hs Ht. cbv zeta.
  exists (fst mouse + fst (Camera.offset (Game.camera g)),
          snd mouse + snd (Camera.offset (Game.camera g))).
  split; [| split].
  - destruct mouse as [mx my]. unfold Camera.apply; simpl. f_equal; ring.
  - intros [wx wy] Hw. destruct mouse as [mx my]. unfold Camera.apply in Hw. simpl in Hw.
    injection Hw as Hx Hy. rewrite <- Hx, <- Hy. simpl. f_equal; ring.
  - unfold Game.handle_event. rewrite Ht. simpl. rewrite Hs. simpl.
    unfold Player.handle_event. simpl. reflexivity.
Qed.

Lemma click_aims_at_point_under_cursor_witness :
  let g := Game.init 1280 720 in
  let pl := PlayerMove.core (Game.player g) in
  let obs := Level.obstacles (Game.level g) in
  exists w : Vec,
    Camera.apply (Game.camera g) w = (640, 360) /\
    (forall w', Camera.apply (Game.camera g) w' = (640, 360) -> w' = w) /\
    PlayerMove.core (Game.player (Game.handle_event (Game.mkGEvent 1025 0 1) (640, 360) g))
    = Player.set_blue pl (Player.create_portal pl w "blue" obs).
Proof.
  exact (click_aims_at_point_under_cursor (Game.mkGEvent 1025 0 1) (640, 360)
           (Game.init 1280 720) eq_refl eq_refl).
Defined.

(** With the lerp speed 5 that [Camera.__init__] sets, each [Camera.update]
    halves the gap between the offset and the centred target, so after [n]
    updates toward a still target the gap is [(1/2)^n] of the first one. *)
Theorem camera_update_halves_gap (n : nat) (tp ts : Vec) (c : Camera.Camera) :
  Camera.lerp_speed c = 5 ->
  let dx := fst tp + fst ts / 2 - Camera.width c / 2 in
  let dy := snd tp + snd ts / 2 - Camera.height c / 2 in
  let c' := Nat.iter n (Camera.update tp ts) c in
  fst (Camera.offset c') - dx = (1 / 2) ^ n * (fst (Camera.offset c) - dx) /\
  snd (Camera.offset c') - dy = (1 / 2) ^ n * (snd (Camera.offset c) - dy).
Proof.
  intro Hl. cbv zeta. induction n as [| n [IHx IHy]].
  - simpl. split; ring.
  - destruct (camera_iter_shape n tp ts c) as [Hw [Hh Hs]].
    change (Nat.iter (S n) (Camera.update tp ts) c)
      with (Camera.update tp ts (Nat.iter n (Camera.update tp ts) c)).
    set (c0 := Nat.iter n (Camera.update tp ts) c) in *.
    unfold Camera.update; cbn [Camera.offset Camera.width Camera.height Camera.lerp_speed fst snd].
    rewrite Hw, Hh, Hs, Hl. simpl pow. split.
    + rewrite (Rmult_assoc (1 / 2) ((1 / 2) ^ n)), <- IHx. lra.
    + rewrite (Rmult_assoc (1 / 2) ((1 / 2) ^ n)), <- IHy. lra.
Qed.

Lemma camera_update_halves_gap_witness :
  let c := Camera.init 800 600 in
  let dx := 100 + 32 / 2 - Camera.width c / 2 in
  let dy := 400 + 64 / 2 - Camera.height c / 2 in
  let c' := Nat.iter 3 (Camera.update (100, 400) (32, 64)) c in
  fst (Camera.offset c') - dx = (1 / 2) ^ 3 * (fst (Camera.offset c) - dx) /\
  snd (Camera.offset c') - dy = (1 / 2) ^ 3 * (snd (Camera.offset c) - dy).
Proof.
  exact (camera_update_halves_gap 3 (100, 400) (32, 64) (Camera.init 800 600) eq_refl).
Defined.

(** [Player.handle_event] ignores every event that is not a mouse click. *)
Lemma player_handle_event_non_click (ev : Player.Event) (mouse : Vec) (lv : Player.Level)
  (pl : Player.Player) :
  Player.ev_type ev <> Player.MOUSEBUTTONDOWN -> Player.handle_event ev mouse lv pl = pl.
Proof.
  intro H. unfold Player.handle_event. destruct (Z.eqb_spec (Player.ev_type ev) Player.MOUSEBUTTONDOWN);
    [contradiction | reflexivity].
Qed.

(** [Game.handle_event]: a key press leaves the menu for play; Escape during
    play (or on the game-over screen) opens the menu without touching the
    player; other events keep the game state; the player is only handed the
    event when the game ends up in "playing", and key presses never change
    the player (so no portal is placed from the menu or by a key). *)
Theorem game_handle_event_transitions (ev : Game.GEvent) (mouse : Vec) (g : Game.Game) :
  let g' := Game.handle_event ev mouse g in
  (Game.g_type ev = Game.KEYDOWN -> Game.game_state g = "menu"%string ->
     Game.game_state g' = "playing"%string) /\
  (Game.g_type ev = Game.KEYDOWN -> Game.game_state g <> "menu"%string ->
     Game.g_key ev = Game.K_ESCAPE ->
     Game.game_state g' = "menu"%string /\ Game.player g' = Game.player g) /\
  (Game.g_type ev <> Game.KEYDOWN -> Game.game_state g' = Game.game_state g) /\
  (Game.game_state g' <> "playing"%string -> Game.player g' = Game.player g) /\
  (Game.g_type ev = Game.KEYDOWN -> Game.player g' = Game.player g).
Proof.
  cbv zeta. unfold Game.handle_event.
  assert (Hk : forall (b : PlayerMove.Body) lv, Game.g_type ev = Game.KEYDOWN ->
            PlayerMove.mkBody
              (Player.handle_event (Player.mkEvent (Game.g_type ev) (Game.g_button ev)) mouse lv
                 (PlayerMove.core b))
              (PlayerMove.on_ground b) (PlayerMove.facing_right b) = b).
  { intros [pl og fr] lv E. simpl. rewrite player_handle_event_non_click; [reflexivity |].
    simpl. rewrite E. discriminate. }
  destruct (Z.eqb_spec (Game.g_type ev) Game.KEYDOWN) as [Et | Et];
  destruct (String.eqb_spec (Game.game_state g) "menu") as [Em | Em];
  destruct (Z.eqb_spec (Game.g_key ev) Game.K_ESCAPE) as [Ek | Ek];
  repeat split; intros; simpl in *; try congruence;
  repeat match goal with
         | |- context [String.eqb ?a ?b] => destruct (String.eqb_spec a b)
         end;
  simpl in *; try congruence; try reflexivity; try (apply Hk; assumption).
Qed.

(** One collision step against an obstacle the rect misses changes nothing. *)
Lemma player_collide_one_miss (d : string) (r : Rect) (b : PlayerMove.Body) (o : Obstacle) :
  colliderect r (ob_rect o) = false -> PlayerMove.collide_one d r b o = b.
Proof. intro H. unfold PlayerMove.collide_one. rewrite H. reflexivity. Qed.

(** After one collision has been resolved, a further obstacle (overlapping
    or not) changes nothing: the velocity along [direction] is already 0. *)
Lemma player_collide_one_stable (d : string) (r : Rect) (b : PlayerMove.Body)
  (o o' : Obstacle) :
  colliderect r (ob_rect o) = true ->
  PlayerMove.collide_one d r (PlayerMove.collide_one d r b o) o' = PlayerMove.collide_one d r b o.
Proof.
  intro H. unfold PlayerMove.collide_one at 2 3. rewrite H.
  destruct (String.eqb d "horizontal") eqn:Eh.
  - unfold PlayerMove.collide_one. cbn [PlayerMove.core PlayerMove.with_pos_vel Player.pos
      Player.vel Player.size Player.blue_portal Player.orange_portal fst snd
      PlayerMove.on_ground PlayerMove.facing_right].
    destruct (colliderect r (ob_rect o')); [| reflexivity]. rewrite Eh.
    destruct (Rlt_dec 0 0); [lra |]. destruct (Rlt_dec 0 0); [lra |]. reflexivity.
  - destruct (String.eqb d "vertical") eqn:Ev.
    + destruct (Rlt_dec 0 (snd (Player.vel (PlayerMove.core b)))).
      * unfold PlayerMove.collide_one. cbn [PlayerMove.core PlayerMove.with_pos_vel Player.pos
          Player.vel Player.size Player.blue_portal Player.orange_portal fst snd
          PlayerMove.on_ground PlayerMove.facing_right].
        destruct (colliderect r (ob_rect o')); [| reflexivity]. rewrite Eh, Ev.
        destruct (Rlt_dec 0 0); [lra |]. destruct (Rlt_dec 0 0); [lra |]. reflexivity.
      * destruct (Rlt_dec (snd (Player.vel (PlayerMove.core b))) 0).
        -- unfold PlayerMove.collide_one. cbn [PlayerMove.core PlayerMove.with_pos_vel
             Player.pos Player.vel Player.size Player.blue_portal Player.orange_portal fst snd
             PlayerMove.on_ground PlayerMove.facing_right].
           destruct (colliderect r (ob_rect o')); [| reflexivity]. rewrite Eh, Ev.
           destruct (Rlt_dec 0 0); [lra |]. destruct (Rlt_dec 0 0); [lra |]. reflexivity.
        -- unfold PlayerMove.collide_one.
           destruct (colliderect r (ob_rect o')); [| reflexivity]. rewrite Eh, Ev.
           destruct (Rlt_dec 0 _); [lra |]. destruct (Rlt_dec _ 0); [lra |]. reflexivity.
    + unfold PlayerMove.collide_one.
      destruct (colliderect r (ob_rect o')); [| reflexivity]. rewrite Eh, Ev. reflexivity.
Qed.

Lemma player_fold_after_hit (d : string) (r : Rect) (b : PlayerMove.Body) (o : Obstacle)
  (l : list Obstacle) :
  colliderect r (ob_rect o) = true ->
  fold_left (PlayerMove.collide_one d r) l (PlayerMove.collide_one d r b o)
  = PlayerMove.collide_one d r b o.
Proof.
  intro H. induction l as [| o' l IH]; [reflexivity |].
  simpl. rewrite player_collide_one_stable by exact H. exact IH.
Qed.

Lemma player_fold_first_hit (d : string) (r : Rect) (obs : list Obstacle)
  (b : PlayerMove.Body) :
  fold_left (PlayerMove.collide_one d r) obs b
  = match find (fun o => colliderect r (ob_rect o)) obs with
    | None => b
    | Some o => PlayerMove.collide_one d r b o
    end.
Proof.
  induction obs as [| o obs IH]; [reflexivity |].
  simpl. destruct (colliderect r (ob_rect o)) eqn:E.
  - apply player_fold_after_hit. exact E.
  - rewrite player_collide_one_miss by exact E. exact IH.
Qed.

(** [Player.handle_collisions] in one direction: only the first obstacle
    (in level order) that overlaps the player's rect has an effect; when
    none overlaps the player is left unchanged. *)
Theorem player_collisions_first_overlap (obs : list Obstacle) (d : string)
  (b : PlayerMove.Body) :
  let r := Player.player_rect (PlayerMove.core b) in
  PlayerMove.handle_collisions obs d b
  = match find (fun o => colliderect r (ob_rect o)) obs with
    | None => b
    | Some o => PlayerMove.collide_one d r b o
    end.
Proof. cbv zeta. unfold PlayerMove.handle_collisions. apply player_fold_first_hit. Qed.

(** A falling player ([vel.y > 0]) that overlaps an obstacle in the vertical
    pass lands on the first such obstacle: its feet are put on the
    obstacle's top, the vertical speed becomes 0 and [on_ground] is set;
    the horizontal position and speed are kept. *)
Theorem player_lands_on_first_overlap (obs : list Obstacle) (b : PlayerMove.Body)
  (o : Obstacle) :
  0 < snd (Player.vel (PlayerMove.core b)) ->
  find (fun o => colliderect (Player.player_rect (PlayerMove.core b)) (ob_rect o)) obs = Some o ->
  let b' := PlayerMove.handle_collisions obs "vertical" b in
  PlayerMove.on_ground b' = true /\
  Player.vel (PlayerMove.core b') = (fst (Player.vel (PlayerMove.core b)), 0) /\
  Player.pos (PlayerMove.core b') =
    (fst (Player.pos (PlayerMove.core b)),
     IZR (r_top (ob_rect o)) - snd (Player.size (PlayerMove.core b))) /\
  snd (Player.pos (PlayerMove.core b')) + snd (Player.size (PlayerMove.core b'))
    = IZR (r_top (ob_rect o)).
Proof.
  intros Hv Hf. cbv zeta. unfold PlayerMove.handle_collisions.
  rewrite player_fold_first_hit, Hf.
  assert (Hc : colliderect (Player.player_rect (PlayerMove.core b)) (ob_rect o) = true).
  { apply (find_some _ _ Hf). }
  unfold PlayerMove.collide_one. rewrite Hc. simpl.
  destruct (Rlt_dec 0 (snd (Player.vel (PlayerMove.core b)))); [| lra].
  simpl. repeat split. ring.
Qed.

Lemma player_landing_sample :
  find (fun o => colliderect (Player.player_rect (Player.mkPlayer (0, 0) (0, 10) (32, 64) None None))
                   (ob_rect o)) [mkObstacle (mkRect (-100) 60 200 20) true]
  = Some (mkObstacle (mkRect (-100) 60 200 20) true).
Proof.
  unfold Player.player_rect, Rect_of. simpl fst. simpl snd.
  rewrite !pg_int_IZR. reflexivity.
Qed.

Lemma player_lands_on_first_overlap_witness :
  let b := PlayerMove.mkBody (Player.mkPlayer (0, 0) (0, 10) (32, 64) None None) false true in
  let b' := PlayerMove.handle_collisions [mkObstacle (mkRect (-100) 60 200 20) true] "vertical" b in
  PlayerMove.on_ground b' = true /\
  Player.vel (PlayerMove.core b') = (0, 0) /\
  Player.pos (PlayerMove.core b') = (0, IZR 60 - 64) /\
  snd (Player.pos (PlayerMove.core b')) + snd (Player.size (PlayerMove.core b')) = IZR 60.
Proof.
  exact (player_lands_on_first_overlap [mkObstacle (mkRect (-100) 60 200 20) true]
           (PlayerMove.mkBody (Player.mkPlayer (0, 0) (0, 10) (32, 64) None None) false true)
           (mkObstacle (mkRect (-100) 60 200 20) true)
           (ltac:(simpl; lra)) player_landing_sample).
Defined.

(** One collision step keeps the direction the player faces. *)
Lemma player_collide_one_facing (d : string) (r : Rect) (b : PlayerMove.Body) (o : Obstacle) :
  PlayerMove.facing_right (PlayerMove.collide_one d r b o) = PlayerMove.facing_right b.
Proof.
  unfold PlayerMove.collide_one.
  destruct (colliderect r (ob_rect o)); [| reflexivity].
  destruct (String.eqb d "horizontal"); [reflexivity |].
  destruct (String.eqb d "vertical"); [| reflexivity].
  destruct (Rlt_dec 0 _); [reflexivity |]. destruct (Rlt_dec _ 0); reflexivity.
Qed.

Lemma player_collisions_facing (obs : list Obstacle) (d : string) (b : PlayerMove.Body) :
  PlayerMove.facing_right (PlayerMove.handle_collisions obs d b) = PlayerMove.facing_right b.
Proof.
  unfold PlayerMove.handle_collisions. rewrite player_fold_first_hit.
  destruct (find _ obs); [apply player_collide_one_facing | reflexivity].
Qed.

(** [Player.update]: after a frame the player faces right when D or Right
    is held (even together with A or Left), faces left when only A or Left
    is held, and keeps its facing otherwise; collisions and portals never
    change it. *)
Theorem player_update_facing (dt : R) (keys : PlayerMove.Keys) (obs : list Obstacle)
  (b : PlayerMove.Body) :
  PlayerMove.facing_right (PlayerMove.update dt keys obs b)
  = if PlayerMove.k_d keys || PlayerMove.k_right keys then true
    else if PlayerMove.k_a keys || PlayerMove.k_left keys then false
    else PlayerMove.facing_right b.
Proof.
  unfold PlayerMove.update.
  destruct (PlayerMove.k_a keys || PlayerMove.k_left keys);
  destruct (PlayerMove.k_d keys || PlayerMove.k_right keys);
  destruct ((PlayerMove.k_w keys || PlayerMove.k_up keys || PlayerMove.k_space keys)
            && PlayerMove.on_ground b); cbn [PlayerMove.facing_right];
  rewrite player_collisions_facing; cbn [PlayerMove.facing_right];
  rewrite player_collisions_facing; reflexivity.
Qed.

(** One horizontal collision step of a physics body: the rect and
    [on_ground] are kept, the vertical speed too, and the horizontal speed
    is multiplied by [-restitution] exactly when the (unsynchronised) rect
    overlaps the obstacle. *)
Lemma object_collide_one_horizontal (b : ObjectMove.Body) (o : Obstacle) :
  let b' := ObjectMove.collide_one "horizontal" b o in
  let v := PhysicsObject.vel (ObjectMove.obj b) in
  PhysicsObject.rect (ObjectMove.obj b') = PhysicsObject.rect (ObjectMove.obj b) /\
  ObjectMove.on_ground b' = ObjectMove.on_ground b /\
  PhysicsObject.vel (ObjectMove.obj b') =
    ((if colliderect (PhysicsObject.rect (ObjectMove.obj b)) (ob_rect o)
      then - ObjectMove.restitution else 1) * fst v, snd v).
Proof.
  cbv zeta. unfold ObjectMove.collide_one.
  destruct (colliderect (PhysicsObject.rect (ObjectMove.obj b)) (ob_rect o)).
  - simpl. repeat split. f_equal. ring.
  - repeat split. destruct (PhysicsObject.vel (ObjectMove.obj b)); simpl. f_equal. ring.
Qed.

Lemma object_fold_horizontal (obs : list Obstacle) (b : ObjectMove.Body) :
  let b' := fold_left (ObjectMove.collide_one "horizontal") obs b in
  let n := length (filter (fun o => colliderect (PhysicsObject.rect (ObjectMove.obj b))
                                      (ob_rect o)) obs) in
  PhysicsObject.rect (ObjectMove.obj b') = PhysicsObject.rect (ObjectMove.obj b) /\
  ObjectMove.on_ground b' = ObjectMove.on_ground b /\
  PhysicsObject.vel (ObjectMove.obj b') =
    ((- ObjectMove.restitution) ^ n * fst (PhysicsObject.vel (ObjectMove.obj b)),
     snd (PhysicsObject.vel (ObjectMove.obj b))).
Proof.
  cbv zeta. revert b. induction obs as [| o obs IH]; intro b.
  - simpl. repeat split. destruct (PhysicsObject.vel (ObjectMove.obj b)); simpl. f_equal. ring.
  - simpl. destruct (object_collide_one_horizontal b o) as [Hr [Hg Hv]].
    destruct (IH (ObjectMove.collide_one "horizontal" b o)) as [Hr' [Hg' Hv']].
    rewrite Hr in Hr', Hv'. rewrite Hg in Hg'. rewrite Hv in Hv'. cbn [fst snd] in Hv'.
    repeat split; try assumption. rewrite Hv'.
    destruct (colliderect (PhysicsObject.rect (ObjectMove.obj b)) (ob_rect o)); simpl length;
      [simpl pow |]; f_equal; ring.
Qed.

(** [PhysicsObject.handle_collisions] in the horizontal pass: the body
    bounces once per overlapping obstacle, all tested against the rect from
    before the pass, so with [n] overlapping obstacles the horizontal speed
    is multiplied by [(-0.3)^n] (two overlaps keep its sign); the vertical
    speed and [on_ground] are unchanged. *)
Theorem object_horizontal_bounce_per_overlap (obs : list Obstacle) (b : ObjectMove.Body) :
  let b' := ObjectMove.handle_collisions obs "horizontal" b in
  let n := length (filter (fun o => colliderect (PhysicsObject.rect (ObjectMove.obj b))
                                      (ob_rect o)) obs) in
  fst (PhysicsObject.vel (ObjectMove.obj b')) =
    (- (3 / 10)) ^ n * fst (PhysicsObject.vel (ObjectMove.obj b)) /\
  snd (PhysicsObject.vel (ObjectMove.obj b')) = snd (PhysicsObject.vel (ObjectMove.obj b)) /\
  ObjectMove.on_ground b' = ObjectMove.on_ground b.
Proof.
  cbv zeta. unfold ObjectMove.handle_collisions.
  destruct (object_fold_horizontal obs b) as [_ [Hg Hv]].
  simpl. rewrite Hv, Hg. simpl. repeat split.
Qed.

(** [Switch.update]: the switch is pressed exactly when some physics
    body's rect overlaps its rect; the returned flag says whether that
    changed; the activation timer moves toward 1 while pressed and toward 0
    otherwise and, for [dt >= 0], stays within [0, 1]. *)
Theorem switch_update_spec (dt : R) (objs : list PhysicsObject.PhysicsObject)
  (s : Switch.Switch) :
  0 <= Switch.activation_timer s <= 1 -> 0 <= dt ->
  let s' := fst (Switch.update dt objs s) in
  Switch.activated s' =
    existsb (fun o => colliderect (Switch.rect s) (PhysicsObject.rect o)) objs /\
  snd (Switch.update dt objs s) = negb (Bool.eqb (Switch.activated s) (Switch.activated s')) /\
  Switch.rect s' = Switch.rect s /\
  0 <= Switch.activation_timer s' <= 1 /\
  (Switch.activated s' = true -> Switch.activation_timer s <= Switch.activation_timer s') /\
  (Switch.activated s' = false -> Switch.activation_timer s' <= Switch.activation_timer s).
Proof.
  intros Ht Hdt. cbv zeta. unfold Switch.update. simpl.
  destruct (existsb _ objs); simpl; repeat split; try reflexivity; try discriminate;
    intros; unfold Rmin, Rmax;
    repeat match goal with |- context [Rle_dec ?a ?b] => destruct (Rle_dec a b) end; lra.
Qed.

Lemma switch_update_spec_witness :
  let sw := Switch.mkSwitch (700, 290) (40, 10) (mkRect 700 290 40 10) false (1 / 2) in
  let cube := PhysicsObject.mkObject (710, 260) (0, 0) (40, 40) (mkRect 710 260 40 40) in
  let s' := fst (Switch.update (1 / 60) [cube] sw) in
  Switch.activated s' = true /\
  snd (Switch.update (1 / 60) [cube] sw) = true /\
  Switch.rect s' = mkRect 700 290 40 10 /\
  0 <= Switch.activation_timer s' <= 1 /\
  (Switch.activated s' = true -> 1 / 2 <= Switch.activation_timer s') /\
  (Switch.activated s' = false -> Switch.activation_timer s' <= 1 / 2).
Proof.
  exact (switch_update_spec (1 / 60)
           [PhysicsObject.mkObject (710, 260) (0, 0) (40, 40) (mkRect 710 260 40 40)]
           (Switch.mkSwitch (700, 290) (40, 10) (mkRect 700 290 40 10) false (1 / 2))
           (ltac:(simpl; lra)) (ltac:(lra))).
Defined.

(** Every portal [create_portal] places comes from a raycast hit whose
    point [Level.can_place_portal] accepts: the hit obstacle is one of the
    level's obstacles, allows portals and contains the hit point. *)
Theorem create_portal_hit_can_place (pl : Player.Player) (target : Vec) (color : string)
  (obs : list Obstacle) (p : Portal) :
  Player.create_portal pl target color obs = Some p ->
  exists hp n o,
    Player.raycast_to_wall (Player.pos pl) target obs = Some (hp, n, o) /\
    In o obs /\ allows_portals o = true /\ collidepoint (ob_rect o) hp = true /\
    can_place_portal obs hp = true.
Proof.
  intro Hc. unfold Player.create_portal in Hc.
  destruct (Player.raycast_to_wall (Player.pos pl) target obs) as [[[hp n] o] |] eqn:Hr;
    [| discriminate].
  destruct (vec_truthy hp && allows_portals o) eqn:Ha; [| discriminate].
  apply andb_prop in Ha as [_ Ha].
  destruct (raycast_spec _ _ _ _ _ _ Hr) as [_ (k & _ & _ & Hf & _)].
  destruct (first_containing_spec _ _ _ Hf) as (pre & post & Hobs & Hin & _).
  assert (Ho : In o obs) by (rewrite Hobs; apply in_or_app; right; left; reflexivity).
  exists hp, n, o. repeat split; try assumption.
  unfold can_place_portal. apply existsb_exists. exists o. rewrite Hin, Ha. split; auto.
Qed.

Lemma create_portal_hit_can_place_witness :
  exists p, Player.create_portal sample_player (10, 0) "blue" [far_wall] = Some p /\
    exists hp n o,
      Player.raycast_to_wall (Player.pos sample_player) (10, 0) [far_wall] = Some (hp, n, o) /\
      In o [far_wall] /\ allows_portals o = true /\ collidepoint (ob_rect o) hp = true /\
      can_place_portal [far_wall] hp = true.
Proof.
  destruct (Player.create_portal sample_player (10, 0) "blue" [far_wall]) as [p |] eqn:Hc.
  - exists p. split; [reflexivity |].
    exact (create_portal_hit_can_place sample_player (10, 0) "blue" [far_wall] p Hc).
  - exfalso. unfold Player.create_portal in Hc. simpl in Hc.
    rewrite raycast_sample_single in Hc. unfold vec_truthy in Hc; simpl in Hc.
    destruct (Req_dec_T 5 0); [lra | discriminate].
Defined.

(** [Enemy.check_portal_transition]: within the cooldown the enemy is left
    unchanged; otherwise it is either left unchanged or teleported through
    the portal its rect overlaps (the blue one first) to the other one: it
    is placed at the exit portal's position, its velocity is rotated by the
    angle between the portals, it is confused for 3 seconds and its portal
    time is set to now. For the cooldown that follows, later checks leave
    it where it is. *)
Theorem enemy_transition_cooldown (now later : R) (blue orange : option Portal)
  (e : Enemy.Enemy) :
  let e' := Enemy.check_portal_transition now blue orange e in
  (now - Enemy.last_portal_time e < Enemy.portal_cooldown e -> e' = e) /\
  (e' = e \/
   exists entry exit : Portal,
     ((blue = Some entry /\ orange = Some exit) \/
      (blue = Some exit /\ orange = Some entry /\
       colliderect (Enemy.rect e) (p_rect exit) = false)) /\
     colliderect (Enemy.rect e) (p_rect entry) = true /\
     Enemy.pos e' = p_pos exit /\
     Enemy.vel e' = rotate_vel (angle_rad entry exit) (Enemy.vel e) /\
     Enemy.state e' = "confused"%string /\ Enemy.confusion_timer e' = 3 /\
     Enemy.last_portal_time e' = now /\ Enemy.portal_cooldown e' = Enemy.portal_cooldown e) /\
  (e' <> e -> later - now < Enemy.portal_cooldown e ->
   Enemy.check_portal_transition later blue orange e' = e').
Proof.
  cbv zeta.
  assert (H : Enemy.check_portal_transition now blue orange e = e \/
   exists entry exit : Portal,
     ((blue = Some entry /\ orange = Some exit) \/
      (blue = Some exit /\ orange = Some entry /\
       colliderect (Enemy.rect e) (p_rect exit) = false)) /\
     colliderect (Enemy.rect e) (p_rect entry) = true /\
     Enemy.pos (Enemy.check_portal_transition now blue orange e) = p_pos exit /\
     Enemy.vel (Enemy.check_portal_transition now blue orange e)
       = rotate_vel (angle_rad entry exit) (Enemy.vel e) /\
     Enemy.state (Enemy.check_portal_transition now blue orange e) = "confused"%string /\
     Enemy.confusion_timer (Enemy.check_portal_transition now blue orange e) = 3 /\
     Enemy.last_portal_time (Enemy.check_portal_transition now blue orange e) = now /\
     Enemy.portal_cooldown (Enemy.check_portal_transition now blue orange e)
       = Enemy.portal_cooldown e).
  { unfold Enemy.check_portal_transition.
    destruct (Rlt_dec (now - Enemy.last_portal_time e) (Enemy.portal_cooldown e));
      [left; reflexivity |].
    destruct blue as [b |]; [| left; reflexivity].
    destruct orange as [o |]; [| left; reflexivity].
    destruct (colliderect (Enemy.rect e) (p_rect b)) eqn:Hb.
    - right. exists b, o. simpl. destruct (p_pos o). repeat split; auto.
    - destruct (colliderect (Enemy.rect e) (p_rect o)) eqn:Ho; [| left; reflexivity].
      right. exists o, b. simpl. destruct (p_pos b). repeat split; auto. }
  split; [| split; [exact H |]].
  - intro Hc. unfold Enemy.check_portal_transition.
    destruct (Rlt_dec (now - Enemy.last_portal_time e) (Enemy.portal_cooldown e));
      [reflexivity | contradiction].
  - intros Hne Hl. destruct H as [H | (en & ex & _ & _ & _ & _ & _ & _ & Ht & Hc)];
      [contradiction |].
    unfold Enemy.check_portal_transition at 1.
    rewrite Ht, Hc. destruct (Rlt_dec (later - now) (Enemy.portal_cooldown e)); [reflexivity | lra].
Qed.

(** The states the game loop keeps: playing or in the menu, on level 0,
    with the obstacles of level 0. *)
Definition game_inv (g : Game.Game) : Prop :=
  (Game.game_state g = "playing"%string \/ Game.game_state g = "menu"%string) /\
  Game.current_level g = 0%Z /\
  Level.obstacles (Game.level g) = Level.obstacles (Level.load 0).

Lemma game_inv_handle_event (e : Game.GEvent) (mouse : Vec) (g : Game.Game) :
  game_inv g -> game_inv (Game.handle_event e mouse g).
Proof.
  intros [Hs [Hl Ho]]. unfold Game.handle_event, game_inv. cbn [Game.game_state
    Game.current_level Game.level]. split; [| split; assumption].
  destruct (Game.g_type e =? Game.KEYDOWN)%Z; [| exact Hs].
  destruct (String.eqb (Game.game_state g) "menu"); [left; reflexivity |].
  destruct (Game.g_key e =? Game.K_ESCAPE)%Z; [right; reflexivity | exact Hs].
Qed.

Lemma game_inv_update (dt : R) (keys : PlayerMove.Keys) (g : Game.Game) :
  game_inv g -> game_inv (Game.update dt keys g).
Proof.
  intros Hi. unfold Game.update.
  destruct (String.eqb (Game.game_state g) "playing"); [| exact Hi].
  unfold Level.is_complete. destruct Hi as [Hs [Hl Ho]].
  unfold game_inv; simpl. auto.
Qed.

Lemma game_inv_handle_events (evs : list (Game.GEvent * Vec)) (g g' : Game.Game) :
  game_inv g -> Game.handle_events evs g = Some g' -> game_inv g'.
Proof.
  revert g. induction evs as [| [e m] evs IH]; intros g Hi H; simpl in H.
  - injection H as <-. exact Hi.
  - destruct (Game.g_type e =? Game.QUIT)%Z; [discriminate |].
    exact (IH _ (game_inv_handle_event e m g Hi) H).
Qed.

Lemma game_inv_run (frames : list Game.Frame) (g g' : Game.Game) :
  game_inv g -> Game.run frames g = Some g' -> game_inv g'.
Proof.
  revert g. induction frames as [| fr frames IH]; intros g Hi H; simpl in H.
  - injection H as <-. exact Hi.
  - unfold Game.frame in H.
    destruct (Game.handle_events (Game.events fr) g) as [g1 |] eqn:He; [| discriminate].
    apply (IH (Game.update (Game.frame_dt fr) (Game.frame_keys fr) g1)); [| exact H].
    apply game_inv_update. exact (game_inv_handle_events _ _ _ Hi He).
Qed.

(** The main loop never leaves the pair of states "playing" and "menu":
    whatever the events, key states and frame times, as long as the program
    runs the game is playing or in the menu, is still on level 0 with its
    obstacles, and never reaches "game_over" ([Level.is_complete] is always
    false). *)
Theorem game_run_stays_on_level_0 (w h : R) (frames : list Game.Frame) (g : Game.Game) :
  Game.run frames (Game.init w h) = Some g ->
  (Game.game_state g = "playing"%string \/ Game.game_state g = "menu"%string) /\
  Game.game_state g <> "game_over"%string /\
  Game.current_level g = 0%Z /\
  Level.obstacles (Game.level g) = Level.obstacles (Level.load 0).
Proof.
  intro H. assert (Hi : game_inv (Game.init w h)).
  { unfold game_inv, Game.init. simpl. auto. }
  destruct (game_inv_run _ _ _ Hi H) as [Hs [Hl Ho]].
  repeat split; try assumption.
  destruct Hs as [-> | ->]; discriminate.
Qed.

(** A run whose events contain no [QUIT] keeps the program running. *)
Lemma game_run_no_quit (frames : list Game.Frame) (g : Game.Game) :
  Forall (fun fr => Forall (fun ev => Game.g_type (fst ev) <> Game.QUIT) (Game.events fr))
    frames ->
  exists g', Game.run frames g = Some g'.
Proof.
  revert g. induction frames as [| fr frames IH]; intros g Hf; [exists g; reflexivity |].
  inversion Hf as [| ? ? Hfr Hrest]; subst.
  assert (He : forall evs g0, Forall (fun ev => Game.g_type (fst ev) <> Game.QUIT) evs ->
                 exists g1, Game.handle_events evs g0 = Some g1).
  { induction evs as [| [e m] evs IHe]; intros g0 Hevs; [exists g0; reflexivity |].
    inversion Hevs as [| ? ? He1 Hevs']; subst. simpl.
    destruct (Z.eqb_spec (Game.g_type e) Game.QUIT); [contradiction |]. apply IHe. exact Hevs'. }
  destruct (He (Game.events fr) g Hfr) as [g1 Hg1].
  simpl. unfold Game.frame. rewrite Hg1. apply IH. exact Hrest.
Qed.

Lemma game_run_stays_on_level_0_witness :
  let no_keys := PlayerMove.mkKeys false false false false false false false in
  let right_key := PlayerMove.mkKeys false false true false false false false in
  let frames :=
    [Game.mkFrame [(Game.mkGEvent Game.KEYDOWN Game.K_ESCAPE 0, (0, 0))] (1 / 60) no_keys;
     Game.mkFrame [(Game.mkGEvent Game.KEYDOWN 97 0, (0, 0))] (1 / 60) right_key;
     Game.mkFrame [(Game.mkGEvent Player.MOUSEBUTTONDOWN 0 1, (640, 360));
                   (Game.mkGEvent Player.MOUSEBUTTONDOWN 0 3, (100, 600))] (1 / 30) no_keys] in
  exists g, Game.run frames (Game.init 1280 720) = Some g /\
  ((Game.game_state g = "playing"%string \/ Game.game_state g = "menu"%string) /\
   Game.game_state g <> "game_over"%string /\
   Game.current_level g = 0%Z /\
   Level.obstacles (Game.level g) = Level.obstacles (Level.load 0)).
Proof.
  cbv zeta.
  match goal with |- exists g, Game.run ?fs ?g0 = Some g /\ _ =>
    assert (Hq : Forall (fun fr => Forall (fun ev => Game.g_type (fst ev) <> Game.QUIT)
                                     (Game.events fr)) fs)
      by (repeat constructor; simpl; discriminate);
    destruct (game_run_no_quit fs g0 Hq) as [g Hg];
    exists g; split; [exact Hg | exact (game_run_stays_on_level_0 1280 720 fs g Hg)]
  end.
Defined.

(** [Portal.update]: every particle left after the update has a positive
    lifetime and a non-negative radius, and a portal with at most 20
    particles still has at most 20 (a radius drawn from [randint(2, 5)]). *)
Theorem portal_particles_bounded (dt : R) (ticks : Z) (d : Particles.Draw)
  (fx : Particles.PortalFx) :
  (length (Particles.particles fx) <= 20)%nat ->
  (2 <= Particles.d_radius d <= 5)%Z ->
  let fx' := Particles.update dt ticks d fx in
  (length (Particles.particles fx') <= 20)%nat /\
  Forall (fun q => 0 < Particles.lifetime q /\ 0 <= Particles.radius q)
    (Particles.particles fx').
Proof.
  intros Hn Hr. cbv zeta. unfold Particles.update.
  set (ps := filter _ _).
  assert (Hps : Forall (fun q => 0 < Particles.lifetime q /\ 0 <= Particles.radius q) ps).
  { apply Forall_forall. intros q Hq. unfold ps in Hq.
    apply filter_In in Hq as [Hq Hl]. apply in_map_iff in Hq as (q0 & <- & _).
    destruct (Rle_dec (Particles.lifetime (Particles.particle_update dt q0)) 0);
      [discriminate |].
    split; [lra |]. simpl. apply Rmax_l. }
  assert (Hlen : (length ps <= 20)%nat).
  { unfold ps. etransitivity; [apply filter_length_le |]. rewrite length_map. exact Hn. }
  destruct (Nat.ltb (length ps) 20 && (ticks mod 100 <? 20)%Z)%bool eqn:Ha.
  - apply andb_prop in Ha as [Ha _]. apply Nat.ltb_lt in Ha.
    unfold Particles.add_particle. simpl. split.
    + rewrite length_app. simpl. lia.
    + apply Forall_app. split; [exact Hps |]. constructor; [| constructor].
      simpl. split; [lra |]. apply IZR_le. lia.
  - simpl. split; assumption.
Qed.

Lemma filter_skip {A : Type} (f : A -> bool) (a : A) (l : list A) :
  f a = false -> filter f (a :: l) = filter f l.
Proof. intro H. simpl. rewrite H. reflexivity. Qed.

Lemma filter_repeat_keep {A : Type} (f : A -> bool) (a : A) (n : nat) :
  f a = true -> filter f (repeat a n) = repeat a n.
Proof. intro H. induction n as [| n IH]; simpl; [reflexivity |]. rewrite H, IH. reflexivity. Qed.

Lemma portal_particles_bounded_witness :
  let fresh := Particles.mkParticle (100, 100) (10, 0) 1 3 in
  let expiring := Particles.mkParticle (100, 100) (0, 10) (1 / 100) 2 in
  let fx := Particles.mkPortalFx portal_A (expiring :: repeat fresh 19) 0 in
  let fx' := Particles.update (1 / 60) 10 (Particles.mkDraw 5 (-20) 3 0 20) fx in
  length (Particles.particles fx') = 20%nat /\
  ((length (Particles.particles fx') <= 20)%nat /\
   Forall (fun q => 0 < Particles.lifetime q /\ 0 <= Particles.radius q)
     (Particles.particles fx')).
Proof.
  intros fresh expiring fx fx'. split.
  - unfold fx', Particles.update.
    change (Particles.particles fx) with (expiring :: repeat fresh 19).
    rewrite map_cons, map_repeat, filter_skip, filter_repeat_keep.
    + rewrite repeat_length. reflexivity.
    + change (Particles.lifetime (Particles.particle_update (1 / 60) fresh)) with (1 - 1 / 60).
      destruct (Rle_dec (1 - 1 / 60) 0); [lra | reflexivity].
    + change (Particles.lifetime (Particles.particle_update (1 / 60) expiring))
        with (1 / 100 - 1 / 60).
      destruct (Rle_dec (1 / 100 - 1 / 60) 0); [reflexivity | lra].
  - exact (portal_particles_bounded (1 / 60) 10 (Particles.mkDraw 5 (-20) 3 0 20) fx
             (ltac:(unfold fx; simpl; lia)) (ltac:(simpl; lia))).
Defined.

(** Moving along a normalised non-zero direction at [EnemyMove.speed]
    gives a velocity of length 100. *)
Lemma vlength_speed_normalize (d : Vec) :
  vlength d <> 0 -> vlength (vscale EnemyMove.speed (normalize d)) = 100.
Proof.
  intro Hd. assert (Hu := normalize_unit d Hd).
  unfold vlength at 1, vscale, EnemyMove.speed; cbn [fst snd].
  replace (100 * fst (normalize d) * (100 * fst (normalize d)) +
           100 * snd (normalize d) * (100 * snd (normalize d))) with (100 * 100) by nra.
  apply sqrt_square. lra.
Qed.

(** Moving along the normalised direction [d] at [EnemyMove.speed] is the
    velocity [(100 / |d|) d]. *)
Lemma vscale_speed_normalize (d : Vec) :
  vlength d <> 0 -> vscale EnemyMove.speed (normalize d) = vscale (100 / vlength d) d.
Proof.
  intro Hd. unfold vscale, normalize, EnemyMove.speed. cbn [fst snd]. f_equal; field; exact Hd.
Qed.

(** [Enemy.chase_player]: the enemy heads straight for the player at
    exactly 100 units per second (its velocity is a positive multiple of
    the vector from it to the player), and stops when it stands on the
    player's position. *)
Theorem enemy_chase_speed (player_pos : Vec) (b : EnemyMove.Body) :
  let d := vsub player_pos (Enemy.pos (EnemyMove.en b)) in
  let v := Enemy.vel (EnemyMove.en (EnemyMove.chase_player player_pos b)) in
  (player_pos = Enemy.pos (EnemyMove.en b) -> v = (0, 0)) /\
  (player_pos <> Enemy.pos (EnemyMove.en b) ->
   0 < 100 / vlength d /\ v = vscale (100 / vlength d) d /\ vlength v = 100).
Proof.
  cbv zeta. unfold EnemyMove.chase_player. simpl. split.
  - intros ->. unfold vsub.
    replace (vlength (fst (Enemy.pos (EnemyMove.en b)) - fst (Enemy.pos (EnemyMove.en b)),
                      snd (Enemy.pos (EnemyMove.en b)) - snd (Enemy.pos (EnemyMove.en b))))
      with 0 by (symmetry; apply vlength_zero_iff; simpl; split; ring).
    destruct (Rlt_dec 0 0); [lra |]. unfold vscale; simpl. f_equal; ring.
  - intro Hne.
    assert (Hd : vlength (vsub player_pos (Enemy.pos (EnemyMove.en b))) <> 0).
    { intro H0. apply vlength_zero_iff in H0. apply Hne.
      destruct player_pos as [x y], (Enemy.pos (EnemyMove.en b)) as [x' y'].
      simpl in H0. f_equal; lra. }
    assert (Hp := vlength_nonneg (vsub player_pos (Enemy.pos (EnemyMove.en b)))).
    destruct (Rlt_dec 0 (vlength (vsub player_pos (Enemy.pos (EnemyMove.en b))))) as [Hl | Hn];
      [| lra].
    split; [apply Rdiv_lt_0_compat; lra |].
    split; [apply vscale_speed_normalize; exact Hd |].
    apply vlength_speed_normalize. exact Hd.
Qed.

(** [Enemy.patrol] on a route whose current index is in range never
    raises. Within 10 units of the current point it switches to the next
    point (cyclically, so the index stays in range) and keeps its velocity;
    otherwise it keeps the index and heads straight for the current point
    at exactly 100 units per second. *)
Theorem enemy_patrol_in_range (b : EnemyMove.Body) :
  (EnemyMove.current_target b < length (EnemyMove.patrol_points b))%nat ->
  exists target b',
    nth_error (EnemyMove.patrol_points b) (EnemyMove.current_target b) = Some target /\
    EnemyMove.patrol b = Some b' /\
    EnemyMove.patrol_points b' = EnemyMove.patrol_points b /\
    (EnemyMove.current_target b' < length (EnemyMove.patrol_points b'))%nat /\
    let d := vsub target (Enemy.pos (EnemyMove.en b)) in
    ((vlength d < 10 /\ EnemyMove.en b' = EnemyMove.en b /\
      EnemyMove.current_target b' =
        Nat.modulo (EnemyMove.current_target b + 1) (length (EnemyMove.patrol_points b))) \/
     (10 <= vlength d /\ EnemyMove.current_target b' = EnemyMove.current_target b /\
      Enemy.pos (EnemyMove.en b') = Enemy.pos (EnemyMove.en b) /\
      Enemy.vel (EnemyMove.en b') = vscale (100 / vlength d) d /\
      vlength (Enemy.vel (EnemyMove.en b')) = 100)).
Proof.
  intro Hi. unfold EnemyMove.patrol.
  destruct (EnemyMove.patrol_points b) as [| p0 ps] eqn:Hp; [simpl in Hi; lia |].
  rewrite <- Hp.
  destruct (nth_error (EnemyMove.patrol_points b) (EnemyMove.current_target b)) as [t |] eqn:Ht.
  2: { apply nth_error_None in Ht. rewrite Hp in Ht. lia. }
  exists t.
  destruct (Rlt_dec (vlength (vsub t (Enemy.pos (EnemyMove.en b)))) 10) as [Hc | Hc].
  - eexists. split; [reflexivity |]. split; [reflexivity |]. simpl.
    split; [reflexivity |]. split.
    + apply Nat.mod_upper_bound. rewrite Hp. discriminate.
    + left. split; [exact Hc |]. split; reflexivity.
  - eexists. split; [reflexivity |]. split; [reflexivity |]. simpl.
    split; [reflexivity |]. split; [rewrite Hp; exact Hi |].
    right. split; [lra |]. split; [reflexivity |]. split; [reflexivity |].
    destruct (Rlt_dec 0 (vlength (vsub t (Enemy.pos (EnemyMove.en b))))); [| lra].
    split; [apply vscale_speed_normalize; lra |].
    apply vlength_speed_normalize. lra.
Qed.

Lemma enemy_patrol_in_range_witness :
  let b := EnemyMove.mkBody sample_enemy [(0, 0); (200, 0)] 1 in
  exists target b',
    nth_error (EnemyMove.patrol_points b) (EnemyMove.current_target b) = Some target /\
    EnemyMove.patrol b = Some b' /\
    EnemyMove.patrol_points b' = EnemyMove.patrol_points b /\
    (EnemyMove.current_target b' < length (EnemyMove.patrol_points b'))%nat /\
    let d := vsub target (Enemy.pos (EnemyMove.en b)) in
    ((vlength d < 10 /\ EnemyMove.en b' = EnemyMove.en b /\
      EnemyMove.current_target b' =
        Nat.modulo (EnemyMove.current_target b + 1) (length (EnemyMove.patrol_points b))) \/
     (10 <= vlength d /\ EnemyMove.current_target b' = EnemyMove.current_target b /\
      Enemy.pos (EnemyMove.en b') = Enemy.pos (EnemyMove.en b) /\
      Enemy.vel (EnemyMove.en b') = vscale (100 / vlength d) d /\
      vlength (Enemy.vel (EnemyMove.en b')) = 100)).
Proof.
  exact (enemy_patrol_in_range (EnemyMove.mkBody sample_enemy [(0, 0); (200, 0)] 1)
           (ltac:(simpl; lia))).
Defined.
